(** * dbr statement compiler: INSERT / UPDATE builders and the chunked
      insert execution loop (insert.go, update.go).

    The Go code is embedded shallowly.  A method with a pointer receiver
    becomes a function that returns the receiver's new value next to its
    results; the [Buffer] a builder writes into is threaded the same way.
    A Go [panic] is an outcome of its own, distinct from a returned error.

    Part 1 holds the model, function by function as in the Go files, and
    the closed forms the statements use.  Part 2 holds the proofs. *)

From Stdlib Require Import ZArith Lia Ascii.
From stdpp Require Import base option list strings gmap pretty.

Local Open Scope Z_scope.
Local Open Scope nat_scope.

#[local] Set Warnings "-register-all".

(** * Part 1: the model *)

(** ** Values, errors, dialects, buffers *)

(** A Go [interface{}] value.  Only the dynamic type [raw] is ever inspected
    by the code (update.go:49-50); the other constructors stand for ordinary
    bindable values. *)
Inductive value : Type :=
| VNil
| VInt (n : Z)
| VStr (s : string)
| VRaw (query : string) (vals : list value).

(** The package's error values.  [ErrTableNotSpecified] and
    [ErrColumnNotSpecified] are the two sentinels the builders return;
    [ErrOther] stands for any error of a collaborator. *)
Inductive error : Type :=
| ErrTableNotSpecified
| ErrColumnNotSpecified
| ErrOther (msg : string).

(** How a call of a [Build] method ends: it returns nil, returns an error,
    or panics. *)
Inductive outcome : Type :=
| Nil
| Err (e : error)
| Panic (msg : string).

(** The [Dialect] interface, as far as the builders call it. *)
Record Dialect : Type := { QuoteIdent : string -> string }.

(** The [Buffer] interface: accumulated SQL text ([String()]) and bound
    arguments ([Value()]). *)
Record Buffer : Type := { buf_String : string; buf_Value : list value }.

Definition NewBuffer : Buffer := {| buf_String := ""; buf_Value := [] |}.

Definition WriteString (buf : Buffer) (s : string) : Buffer :=
  {| buf_String := buf_String buf +:+ s; buf_Value := buf_Value buf |}.

Definition WriteValue (buf : Buffer) (v : list value) : Buffer :=
  {| buf_String := buf_String buf; buf_Value := buf_Value buf ++ v |}.

(** Modelled from the spec: the placeholder constant (its declaration is not
    part of the sources at hand); the spec's scenario shows [(?,?)]. *)
Definition placeholder : string := "?".

(** The [Builder] interface: one method, [Build(d, buf) error]. *)
Definition Builder : Type := Dialect -> Buffer -> Buffer * outcome.

(** The struct [raw]: pre-written SQL and its arguments. *)
Record raw : Type := { Query : string; raw_Value : list value }.

Definition no_raw : raw := {| Query := ""; raw_Value := [] |}.

(** Modelled from the spec: [raw.Build] (its body is not part of the sources at
    hand).  A raw fragment carries pre-written SQL text and its own argument
    list; compiling it appends both and cannot fail. *)
Definition raw_Build_spec (d : Dialect) (r : raw) (buf : Buffer) : Buffer * outcome :=
  (WriteValue (WriteString buf (Query r)) (raw_Value r), Nil).

(** [sql.Result], as far as the code reads it. *)
Record Result : Type := { LastInsertId : Z + error; RowsAffected : Z + error }.

(** Number of placeholder characters in a piece of SQL text. *)
Fixpoint count_placeholder (s : string) : nat :=
  match s with
  | EmptyString => 0
  | String c rest =>
      (if Ascii.eqb c "?"%char then 1 else 0) + count_placeholder rest
  end.

(** Text written by a loop that puts [sep] before every item but the one at
    index 0, when the loop starts at index [i]. *)
Fixpoint joined (sep : string) (i : nat) (items : list string) : string :=
  match items with
  | [] => ""
  | x :: rest => (if 0 <? i then sep else "") +:+ x +:+ joined sep (S i) rest
  end.

(** ** INSERT (insert.go) *)

Module Insert.

(** insert.go:11-22.  [raw_] and [dialect] are the embedded [raw] and
    [Dialect]; the embedded runner and event receiver are collaborators of
    [exec] and appear there.  [RunLen] is a Go [int], on which the code does
    no arithmetic; [RecordID] is a pointer into the caller's memory, or nil. *)
Record InsertStmt : Type := {
  raw_ : raw;
  Table : string;
  Column : list string;
  Value : list (list value);
  RunLen : Z;
  ReturnColumn : list string;
  RecordID : option positive;
  dialect : Dialect
}.

Definition set_RunLen (b : InsertStmt) (n : Z) : InsertStmt :=
  {| raw_ := raw_ b; Table := Table b; Column := Column b; Value := Value b;
     RunLen := n; ReturnColumn := ReturnColumn b; RecordID := RecordID b;
     dialect := dialect b |}.

Definition set_Value (b : InsertStmt) (v : list (list value)) : InsertStmt :=
  {| raw_ := raw_ b; Table := Table b; Column := Column b; Value := v;
     RunLen := RunLen b; ReturnColumn := ReturnColumn b; RecordID := RecordID b;
     dialect := dialect b |}.

Definition set_RecordID (b : InsertStmt) (p : option positive) : InsertStmt :=
  {| raw_ := raw_ b; Table := Table b; Column := Column b; Value := Value b;
     RunLen := RunLen b; ReturnColumn := ReturnColumn b; RecordID := p;
     dialect := dialect b |}.

(** insert.go:49-56, the loop over [b.Column]: quoted names go to the buffer,
    placeholders to [placeholderBuf]. *)
Fixpoint write_columns (d : Dialect) (i : nat) (cols : list string)
    (buf : Buffer) (placeholderBuf : string) : Buffer * string :=
  match cols with
  | [] => (buf, placeholderBuf)
  | col :: rest =>
      let buf := if 0 <? i then WriteString buf "," else buf in
      let placeholderBuf :=
        if 0 <? i then placeholderBuf +:+ "," else placeholderBuf in
      write_columns d (S i) rest (WriteString buf (QuoteIdent d col))
        (placeholderBuf +:+ placeholder)
  end.

(** insert.go:61-74, the loop over [b.Value]; returns [runnum] and the
    buffer. *)
Fixpoint write_tuples (runLen : Z) (placeholderStr : string) (i : nat)
    (rows : list (list value)) (runnum : nat) (buf : Buffer) : nat * Buffer :=
  match rows with
  | [] => (runnum, buf)
  | tuple :: rest =>
      if (runLen <=? Z.of_nat i)%Z then (runnum, buf)
      else
        let buf := if 0 <? i then WriteString buf ", " else buf in
        write_tuples runLen placeholderStr (S i) rest (S runnum)
          (WriteValue (WriteString buf placeholderStr) tuple)
  end.

(** insert.go:79-84, the loop over [b.ReturnColumn]. *)
Fixpoint write_returning (d : Dialect) (i : nat) (cols : list string)
    (buf : Buffer) : Buffer :=
  match cols with
  | [] => buf
  | col :: rest =>
      let buf := if 0 <? i then WriteString buf "," else buf in
      write_returning d (S i) rest (WriteString buf (QuoteIdent d col))
  end.

(** insert.go:91-95 *)
Definition InsertInto (d : Dialect) (table : string) : InsertStmt :=
  {| raw_ := no_raw; Table := table; Column := []; Value := []; RunLen := 0%Z;
     ReturnColumn := []; RecordID := None; dialect := d |}.

(** insert.go:116-123 *)
Definition InsertBySql (d : Dialect) (query : string) (value : list value) : InsertStmt :=
  {| raw_ := {| Query := query; raw_Value := value |}; Table := ""; Column := [];
     Value := []; RunLen := 0%Z; ReturnColumn := []; RecordID := None;
     dialect := d |}.

(** insert.go:143-146 *)
Definition Columns (b : InsertStmt) (column : list string) : InsertStmt :=
  {| raw_ := raw_ b; Table := Table b; Column := column; Value := Value b;
     RunLen := RunLen b; ReturnColumn := ReturnColumn b; RecordID := RecordID b;
     dialect := dialect b |}.

(** insert.go:150-153 *)
Definition Values (b : InsertStmt) (value : list value) : InsertStmt :=
  set_Value b (Value b ++ [value]).

(** What one call of [exec] hands back: a result, an error, or a panic that
    unwinds through it. *)
Inductive exec_result : Type :=
| ExecOk (r : Result)
| ExecErr (e : error)
| ExecPanic (msg : string).

(** How [ExecContext] is left: [return result, err], or a panic. *)
Inductive exit : Type :=
| Return (result : option Result) (err : option error)
| Crash (msg : string).

(** insert.go:207-210 *)
Definition Returning (b : InsertStmt) (column : list string) : InsertStmt :=
  {| raw_ := raw_ b; Table := Table b; Column := Column b; Value := Value b;
     RunLen := RunLen b; ReturnColumn := column; RecordID := RecordID b;
     dialect := dialect b |}.

(** insert.go:238-242 *)
Definition SetRunLen (b : InsertStmt) (i : Z) : InsertStmt := set_RunLen b i.

(** insert.go:192-195, the loop over the map when no column is set:
    [visited] is the sequence of entries in the order [range] yields them. *)
Fixpoint Map_range (visited : list (string * value)) (column : list string)
    (vals : list value) : list string * list value :=
  match visited with
  | [] => (column, vals)
  | (k, v) :: rest => Map_range rest (column ++ [k]) (vals ++ [v])
  end.

(** insert.go:197-200, the loop over [b.Column]: a key the map lacks reads
    as the zero value of [interface{}], nil. *)
Fixpoint Map_columns (kv : gmap string value) (cols : list string)
    (vals : list value) : list value :=
  match cols with
  | [] => vals
  | col :: rest => Map_columns kv rest (vals ++ [default VNil (kv !! col)])
  end.

(** insert.go:189-204.  The order in which [range] visits a map is not
    specified by Go; [range_order] stands for it. *)
Definition Map (range_order : gmap string value -> list (string * value))
    (b : InsertStmt) (kv : gmap string value) : InsertStmt :=
  if decide (length (Column b) = 0) then
    let '(column, vals) := Map_range (range_order kv) (Column b) [] in
    let b := Columns b column in
    set_Value b (Value b ++ [vals])
  else
    let vals := Map_columns kv (Column b) [] in
    set_Value b (Value b ++ [vals]).

(** insert.go:214-225.  The column is appended before the rows are looked
    at; with two rows or more the call panics. *)
Definition Pair (b : InsertStmt) (column : string) (v : value)
    : InsertStmt * option string :=
  let b := Columns b (Column b ++ [column]) in
  match Value b with
  | [] => (Values b [v], None)
  | [tuple] => (set_Value b [tuple ++ [v]], None)
  | _ => (b, Some "pair only allows one record to insert")
  end.

(** [Pair] called for each pair of a list in turn; a panic ends the chain. *)
Fixpoint Pairs (b : InsertStmt) (pairs : list (string * value))
    : InsertStmt * option string :=
  match pairs with
  | [] => (b, None)
  | (column, v) :: rest =>
      match Pair b column v with
      | (b, None) => Pairs b rest
      | (b, Some msg) => (b, Some msg)
      end
  end.

(** What [Pair] builds and expects: no column and no row yet, or one row
    with a value for each column. *)
Definition pair_built (b : InsertStmt) : Prop :=
  (Column b = [] /\ Value b = []) \/
  (exists tuple, Value b = [tuple] /\ length tuple = length (Column b)).

Section WithRaw.

(** [raw.Build] is not part of the sources at hand: the builders are
    verified for every implementation of it. *)
Variable raw_Build : Dialect -> raw -> Buffer -> Buffer * outcome.

(** insert.go:26-88.  Returns the statement as the call leaves it, the buffer
    and the outcome. *)
Definition Build (b : InsertStmt) (d : Dialect) (buf : Buffer)
    : InsertStmt * Buffer * outcome :=
  let b := if decide (RunLen b = 0%Z) then set_RunLen b 1000%Z else b in
  if decide (Query (raw_ b) <> "") then
    let '(buf, o) := raw_Build d (raw_ b) buf in (b, buf, o)
  else if decide (Table b = "") then (b, buf, Err ErrTableNotSpecified)
  else if decide (length (Column b) = 0) then (b, buf, Err ErrColumnNotSpecified)
  else
    let buf := WriteString buf "INSERT INTO " in
    let buf := WriteString buf (QuoteIdent d (Table b)) in
    let placeholderBuf := "(" in
    let buf := WriteString buf " (" in
    let '(buf, placeholderBuf) := write_columns d 0 (Column b) buf placeholderBuf in
    let buf := WriteString buf ") VALUES " in
    let placeholderStr := placeholderBuf +:+ ")" in
    let '(runnum, buf) := write_tuples (RunLen b) placeholderStr 0 (Value b) 0 buf in
    let b := set_Value b (drop runnum (Value b)) in
    let buf :=
      if decide (0 < length (ReturnColumn b)) then
        write_returning d 0 (ReturnColumn b) (WriteString buf " RETURNING ")
      else buf in
    (b, buf, Nil).

(** The statement after [n] compile calls, each into a buffer of its own. *)
Fixpoint Build_times (n : nat) (b : InsertStmt) (d : Dialect) : InsertStmt :=
  match n with
  | 0 => b
  | S n => Build_times n (Build b d NewBuffer).1.1 d
  end.

(** *** Closed forms of what a compile call does *)

(** The statement's effective batch cap: [RunLen], or 1000 when unset. *)
Definition cap (b : InsertStmt) : Z :=
  if decide (RunLen b = 0%Z) then 1000%Z else RunLen b.

(** Rows one compile call takes from the pending list. *)
Definition chunk_len (b : InsertStmt) : nat :=
  Nat.min (Z.to_nat (cap b)) (length (Value b)).

(** The parenthesised placeholder group of one row. *)
Definition placeholderStr (b : InsertStmt) : string :=
  "(" +:+ String.concat "," (replicate (length (Column b)) placeholder) +:+ ")".

(** The text one compile call appends when it emits [k] rows. *)
Definition insert_text (d : Dialect) (b : InsertStmt) (k : nat) : string :=
  "INSERT INTO " +:+ QuoteIdent d (Table b) +:+ " ("
  +:+ String.concat "," (QuoteIdent d <$> Column b) +:+ ") VALUES "
  +:+ String.concat ", " (replicate k (placeholderStr b))
  +:+ (if decide (0 < length (ReturnColumn b))
       then " RETURNING " +:+ String.concat "," (QuoteIdent d <$> ReturnColumn b)
       else "").

(** What a compile call that took [k] rows leaves in the statement. *)
Definition after_Build (b : InsertStmt) (k : nat) : InsertStmt :=
  set_Value (set_RunLen b (cap b)) (drop k (Value b)).

(** The fields a compile call never changes, and the effective cap. *)
Definition same_config (b0 b : InsertStmt) : Prop :=
  raw_ b0 = raw_ b /\ Table b0 = Table b /\ Column b0 = Column b /\
  ReturnColumn b0 = ReturnColumn b /\ cap b0 = cap b.

(** *** The chunked execution loop (insert.go:244-261) *)

(** The runner collaborator (a session or a transaction): executing a
    compiled statement changes the runner's state and yields a result or an
    error.  Its implementation is outside the sources at hand, so the loop is
    verified for every runner. *)
Variable RunnerState : Type.
Variable runner_Exec :
  RunnerState -> string -> list value -> RunnerState * (Result + error).

(** Modelled from the spec: [exec] (its body is not part of the sources at
    hand): compile the statement against a buffer of its own, and hand text
    and arguments to the runner unless compiling failed. *)
Definition exec (b : InsertStmt) (rs : RunnerState)
    : InsertStmt * RunnerState * exec_result :=
  let '(b, buf, o) := Build b (dialect b) NewBuffer in
  match o with
  | Nil =>
      let '(rs, r) := runner_Exec rs (buf_String buf) (buf_Value buf) in
      (b, rs, match r with inl res => ExecOk res | inr e => ExecErr e end)
  | Err e => (b, rs, ExecErr e)
  | Panic msg => (b, rs, ExecPanic msg)
  end.

(** The variables of [ExecContext]: the statement behind the receiver, the
    local [result], the runner, and the caller's memory that [RecordID]
    points into. *)
Record loop_state : Type := {
  st_b : InsertStmt;
  st_result : option Result;
  st_runner : RunnerState;
  st_mem : gmap positive Z
}.

(** insert.go:249-258, one turn of the loop; [Some] when the turn leaves the
    function. *)
Definition loop_body (s : loop_state) : loop_state * option exit :=
  let '(b, rs, r) := exec (st_b s) (st_runner s) in
  match r with
  | ExecPanic msg =>
      ({| st_b := b; st_result := st_result s; st_runner := rs;
          st_mem := st_mem s |}, Some (Crash msg))
  | ExecErr e =>
      ({| st_b := b; st_result := st_result s; st_runner := rs;
          st_mem := st_mem s |}, Some (Return None (Some e)))
  | ExecOk res =>
      match RecordID b with
      | Some p =>
          ({| st_b := set_RecordID b None; st_result := Some res;
              st_runner := rs;
              st_mem := match LastInsertId res with
                        | inl id => <[p := id]> (st_mem s)
                        | inr _ => st_mem s
                        end |}, None)
      | None =>
          ({| st_b := b; st_result := Some res; st_runner := rs;
              st_mem := st_mem s |}, None)
      end
  end.

(** insert.go:247-260.  The loop need not end (a raw override next to pending
    rows never shrinks the list), so it runs on fuel; [None] says the loop is
    still turning when the fuel is spent. *)
Fixpoint ExecContext_loop (fuel : nat) (s : loop_state)
    : loop_state * option exit :=
  if decide (0 < length (Value (st_b s))) then
    match fuel with
    | 0 => (s, None)
    | S fuel =>
        match loop_body s with
        | (s', None) => ExecContext_loop fuel s'
        | (s', Some x) => (s', Some x)
        end
    end
  else (s, Some (Return (st_result s) None)).

Definition ExecContext (fuel : nat) (b : InsertStmt) (rs : RunnerState)
    (mem : gmap positive Z) : loop_state * option exit :=
  ExecContext_loop fuel
    {| st_b := b; st_result := None; st_runner := rs; st_mem := mem |}.

(** [loop_reaches k s s']: from [s], [k] turns of the loop each end without
    leaving the function, and the last one ends in [s']. *)
Inductive loop_reaches : nat -> loop_state -> loop_state -> Prop :=
| reaches_0 (s : loop_state) : loop_reaches 0 s s
| reaches_S (k : nat) (s s1 s' : loop_state) :
    Value (st_b s) <> [] ->
    loop_body s = (s1, None) ->
    loop_reaches k s1 s' ->
    loop_reaches (S k) s s'.

(** *** GetSQL (insert.go:228-232) *)

(** Modelled from the spec: [getSQL] (its body is not part of the sources at
    hand): retrieval runs compilation against a disposable buffer and
    stringifies the result. *)
Definition getSQL (b : InsertStmt) (d : Dialect)
    : InsertStmt * (string * outcome) :=
  let '(b, buf, o) := Build b d NewBuffer in
  (b, (match o with Nil => buf_String buf | _ => "" end, o)).

(** Statements are reached through pointers, so [GetSQL] is modelled over a
    store of statement objects: a [*InsertStmt] is an address of the store.
    A call through a pointer reads the object and writes back what the
    method leaves. *)
Definition getSQL_at (p : positive) (d : Dialect)
    (store : gmap positive InsertStmt)
    : option (gmap positive InsertStmt * (string * outcome)) :=
  match store !! p with
  | None => None
  | Some b => let '(b', r) := getSQL b d in Some (<[p := b']> store, r)
  end.

(** insert.go:228-232: [b1 := *b] copies the struct into a new object,
    [b2 := &b1] is its address, and compilation runs on [b2]. *)
Definition GetSQL (b : positive) (store : gmap positive InsertStmt)
    : option (gmap positive InsertStmt * (string * outcome)) :=
  match store !! b with
  | None => None
  | Some b1 =>
      let b2 := fresh (dom store) in
      getSQL_at b2 (dialect b1) (<[b2 := b1]> store)
  end.

(** [ExecContext] called through the pointer [b]. *)
Definition ExecContext_at (fuel : nat) (b : positive)
    (store : gmap positive InsertStmt) (rs : RunnerState)
    (mem : gmap positive Z) : option (loop_state * option exit) :=
  match store !! b with
  | None => None
  | Some stmt => Some (ExecContext fuel stmt rs mem)
  end.

End WithRaw.

Arguments st_b {RunnerState} _.
Arguments st_result {RunnerState} _.
Arguments st_runner {RunnerState} _.
Arguments st_mem {RunnerState} _.
Arguments exec raw_Build {RunnerState} runner_Exec b rs.
Arguments loop_body raw_Build {RunnerState} runner_Exec s.
Arguments ExecContext_loop raw_Build {RunnerState} runner_Exec fuel s.
Arguments ExecContext raw_Build {RunnerState} runner_Exec fuel b rs mem.
Arguments ExecContext_at raw_Build {RunnerState} runner_Exec fuel b store rs mem.
Arguments loop_reaches raw_Build {RunnerState} runner_Exec _ _ _.

End Insert.

(** ** Conditions *)

(** Modelled from the spec: [Expr] (its body is not part of the sources at
    hand): it compiles the template verbatim and appends the arguments in
    order, without validating one against the other. *)
Definition Expr (query : string) (value : list value) : Builder :=
  fun d buf => (WriteValue (WriteString buf query) value, Nil).

(** The children of a group, joined by [sep]; the first child that does not
    return nil ends the group with its outcome. *)
Fixpoint build_children (d : Dialect) (sep : string) (i : nat)
    (children : list Builder) (buf : Buffer) : Buffer * outcome :=
  match children with
  | [] => (buf, Nil)
  | c :: rest =>
      let buf := if 0 <? i then WriteString buf sep else buf in
      match c d buf with
      | (buf, Nil) => build_children d sep (S i) rest buf
      | (buf, o) => (buf, o)
      end
  end.

(** Modelled from the spec: [And] (its body is not part of the sources at
    hand): it compiles each child, joins them with " AND ", wraps the group
    in parentheses when it has more than one child, and propagates the first
    error of a child, aborting the group. *)
Definition And (children : list Builder) : Builder :=
  fun d buf =>
    if decide (1 < length children) then
      match build_children d " AND " 0 children (WriteString buf "(") with
      | (buf, Nil) => (WriteString buf ")", Nil)
      | (buf, o) => (buf, o)
      end
    else build_children d " AND " 0 children buf.

(** ** UPDATE (update.go) *)

Module Update.

(** update.go:10-21.  [Value] is a Go map, [WhereCond] a slice of values of
    the interface [Builder]. *)
Record UpdateStmt : Type := {
  raw_ : raw;
  Table : string;
  Value : gmap string value;
  WhereCond : list Builder;
  LimitCount : Z;
  dialect : Dialect
}.

(** update.go:78-84 *)
Definition Update (d : Dialect) (table : string) : UpdateStmt :=
  {| raw_ := no_raw; Table := table; Value := ∅; WhereCond := [];
     LimitCount := (-1)%Z; dialect := d |}.

(** update.go:105-114 *)
Definition UpdateBySql (d : Dialect) (query : string) (value : list value)
    : UpdateStmt :=
  {| raw_ := {| Query := query; raw_Value := value |}; Table := "";
     Value := ∅; WhereCond := []; LimitCount := (-1)%Z; dialect := d |}.

(** update.go:136-144, with a [Builder] for query. *)
Definition Where (b : UpdateStmt) (query : Builder) : UpdateStmt :=
  {| raw_ := raw_ b; Table := Table b; Value := Value b;
     WhereCond := WhereCond b ++ [query]; LimitCount := LimitCount b;
     dialect := dialect b |}.

(** update.go:147-150 *)
Definition Set_ (b : UpdateStmt) (column : string) (v : value) : UpdateStmt :=
  {| raw_ := raw_ b; Table := Table b; Value := <[column := v]> (Value b);
     WhereCond := WhereCond b; LimitCount := LimitCount b;
     dialect := dialect b |}.

(** update.go:160-163: [int64(n)] of a [uint64] wraps around. *)
Definition Limit (b : UpdateStmt) (n : Z) : UpdateStmt :=
  {| raw_ := raw_ b; Table := Table b; Value := Value b;
     WhereCond := WhereCond b;
     LimitCount := if (n <? 2 ^ 63)%Z then n else (n - 2 ^ 64)%Z;
     dialect := dialect b |}.

Definition set_LimitCount (b : UpdateStmt) (n : Z) : UpdateStmt :=
  {| raw_ := raw_ b; Table := Table b; Value := Value b;
     WhereCond := WhereCond b; LimitCount := n; dialect := dialect b |}.



(** The dynamic type test of update.go:49-50. *)
Definition is_raw (v : value) : bool :=
  match v with VRaw _ _ => true | _ => false end.

Section WithRaw.

(** [raw.Build] is not part of the sources at hand: the builder is verified
    for every implementation of it. *)
Variable raw_Build : Dialect -> raw -> Buffer -> Buffer * outcome.

(** The order in which [range] visits a map is not specified by Go: the
    builder is verified for every order. *)
Variable range_order : gmap string value -> list (string * value).

(** update.go:43-57, the loop over [b.Value].  The error [v.Build] returns
    at line 51 is not looked at; a panic unwinds. *)
Fixpoint write_set (d : Dialect) (i : nat) (kvs : list (string * value))
    (buf : Buffer) : Buffer * outcome :=
  match kvs with
  | [] => (buf, Nil)
  | (col, v) :: rest =>
      let buf := if 0 <? i then WriteString buf ", " else buf in
      let buf := WriteString buf (QuoteIdent d col) in
      let buf := WriteString buf " = " in
      match v with
      | VRaw query vals =>
          match raw_Build d {| Query := query; raw_Value := vals |} buf with
          | (buf, Panic msg) => (buf, Panic msg)
          | (buf, _) => write_set d (S i) rest buf
          end
      | _ =>
          write_set d (S i) rest (WriteValue (WriteString buf placeholder) [v])
      end
  end.

(** update.go:25-75 *)
Definition Build (b : UpdateStmt) (d : Dialect) (buf : Buffer)
    : Buffer * outcome :=
  if decide (Query (raw_ b) <> "") then raw_Build d (raw_ b) buf
  else if decide (Table b = "") then (buf, Err ErrTableNotSpecified)
  else if decide (size (Value b) = 0) then (buf, Err ErrColumnNotSpecified)
  else
    let buf := WriteString buf "UPDATE " in
    let buf := WriteString buf (QuoteIdent d (Table b)) in
    let buf := WriteString buf " SET " in
    match write_set d 0 (range_order (Value b)) buf with
    | (buf, Nil) =>
        if decide (0 < length (WhereCond b)) then
          let buf := WriteString buf " WHERE " in
          match And (WhereCond b) d buf with
          | (buf, Nil) =>
              if decide (0 <= LimitCount b)%Z then
                (WriteString (WriteString buf " LIMIT ")
                   (pretty (LimitCount b)), Nil)
              else (buf, Nil)
          | (buf, o) => (buf, o)
          end
        else (buf, Panic "没有条件")
    | (buf, o) => (buf, o)
    end.

(** The runner collaborator, as for INSERT. *)
Variable RunnerState : Type.
Variable runner_Exec :
  RunnerState -> string -> list value -> RunnerState * (Result + error).

(** Modelled from the spec: [exec] (its body is not part of the sources at
    hand): compile the statement against a buffer of its own, and hand text
    and arguments to the runner unless compiling failed. *)
Definition exec (b : UpdateStmt) (rs : RunnerState)
    : RunnerState * Insert.exec_result :=
  let '(buf, o) := Build b (dialect b) NewBuffer in
  match o with
  | Nil =>
      let '(rs, r) := runner_Exec rs (buf_String buf) (buf_Value buf) in
      (rs, match r with
           | inl res => Insert.ExecOk res
           | inr e => Insert.ExecErr e
           end)
  | Err e => (rs, Insert.ExecErr e)
  | Panic msg => (rs, Insert.ExecPanic msg)
  end.

(** update.go:176-178 *)
Definition ExecContext (b : UpdateStmt) (rs : RunnerState)
    : RunnerState * Insert.exec_result :=
  exec b rs.

End WithRaw.

Arguments exec raw_Build range_order {RunnerState} runner_Exec b rs.
Arguments ExecContext raw_Build range_order {RunnerState} runner_Exec b rs.

(** The text of one SET item whose value is bound. *)
Definition set_item (d : Dialect) (kv : string * value) : string :=
  QuoteIdent d kv.1 +:+ " = " +:+ placeholder.



End Update.

(** ** Concrete collaborators and statements *)

(** A dialect that quotes identifiers with backticks. *)
Definition mysql : Dialect := {| QuoteIdent := fun s => "`" +:+ s +:+ "`" |}.

(** A runner that keeps the statements it receives, answers the call number
    [n] (from 1) with generated id [n], and fails the call whose index (from
    0) is [fail_at]. *)
Definition log_runner (fail_at : option nat) (log : list (string * list value))
    (query : string) (args : list value)
    : list (string * list value) * (Result + error) :=
  (log ++ [(query, args)],
   if decide (fail_at = Some (length log)) then inr (ErrOther "connection lost")
   else inl {| LastInsertId := inl (Z.of_nat (S (length log)));
               RowsAffected := inl 1%Z |}).

(** A runner of a backend without generated ids: [LastInsertId] returns an
    error. *)
Definition no_id_runner (log : list (string * list value))
    (query : string) (args : list value)
    : list (string * list value) * (Result + error) :=
  (log ++ [(query, args)],
   inl {| LastInsertId := inr (ErrOther "LastInsertId is not supported");
          RowsAffected := inl 1%Z |}).

(** [InsertInto("users").Columns("name","age").Values("a",1).Values("b",2)] *)
Definition users_rows : Insert.InsertStmt :=
  Insert.Values
    (Insert.Values
       (Insert.Columns (Insert.InsertInto mysql "users") ["name"; "age"])
       [VStr "a"; VInt 1])
    [VStr "b"; VInt 2].

(** [Update("users").Set("age", 5)] *)
Definition users_age : Update.UpdateStmt :=
  Update.Set_ (Update.Update mysql "users") "age" (VInt 5).

(** A statement used as a condition: [*InsertStmt] is a [Builder]. *)
Definition insert_Builder
    (raw_Build : Dialect -> raw -> Buffer -> Buffer * outcome)
    (b : Insert.InsertStmt) : Builder :=
  fun d buf => let '(_, buf', o) := Insert.Build raw_Build b d buf in (buf', o).

(** Three rows, one row per chunk. *)
Definition three_rows : Insert.InsertStmt :=
  Insert.SetRunLen (Insert.Values users_rows [VStr "c"; VInt 3]) 1.

(** [ExecContext] starts with a nil [result]. *)
Definition start (b : Insert.InsertStmt) (mem : gmap positive Z)
    : Insert.loop_state (list (string * list value)) :=
  {| Insert.st_b := b; Insert.st_result := None; Insert.st_runner := [];
     Insert.st_mem := mem |}.

(** [three_rows] with [RecordID] bound to the slot at address 1. *)
Definition three_rows_bound : Insert.InsertStmt :=
  Insert.set_RecordID three_rows (Some 1%positive).

(** A [raw.Build] with the error it returns erased. *)
Definition without_error
    (raw_Build : Dialect -> raw -> Buffer -> Buffer * outcome)
    : Dialect -> raw -> Buffer -> Buffer * outcome :=
  fun d r buf =>
    match raw_Build d r buf with
    | (buf', Err _) => (buf', Nil)
    | res => res
    end.

(** A runner that also keeps, in order, what it is sent. *)
Definition logged {RunnerState : Type}
    (runner_Exec :
       RunnerState -> string -> list value -> RunnerState * (Result + error))
    (st : RunnerState * list (string * list value))
    (query : string) (args : list value)
    : (RunnerState * list (string * list value)) * (Result + error) :=
  let '(rs, r) := runner_Exec st.1 query args in
  ((rs, st.2 ++ [(query, args)]), r).

(** A runner whose every execution succeeds. *)
Definition never_fails {RunnerState : Type}
    (runner_Exec :
       RunnerState -> string -> list value -> RunnerState * (Result + error))
    : Prop :=
  forall rs query args, exists rs' res, runner_Exec rs query args = (rs', inl res).

(** The statements that [n] turns of the loop send for the pending [rows]
    under a cap of [c] rows: one statement per slice of [c] rows. *)
Fixpoint sent_chunks (d : Dialect) (b : Insert.InsertStmt) (c n : nat)
    (rows : list (list value)) : list (string * list value) :=
  match n with
  | 0 => []
  | S n =>
      match rows with
      | [] => []
      | _ :: _ =>
          (Insert.insert_text d b (Nat.min c (length rows)),
           concat (take c rows))
          :: sent_chunks d b c n (drop c rows)
      end
  end.

(** A runner without state whose executions all succeed. *)
Definition ok_runner (rs : unit) (query : string) (args : list value)
    : unit * (Result + error) :=
  (rs, inl {| LastInsertId := inl 1%Z; RowsAffected := inl 1%Z |}).

(** [ExecContext] starting on a logged [ok_runner] that was sent nothing. *)
Definition start_logged (b : Insert.InsertStmt)
    : Insert.loop_state (unit * list (string * list value)) :=
  {| Insert.st_b := b; Insert.st_result := None; Insert.st_runner := (tt, []);
     Insert.st_mem := ∅ |}.

(** [InsertBySql("INSERT INTO t VALUES (1)").Values(1)] *)
Definition raw_with_row : Insert.InsertStmt :=
  Insert.Values (Insert.InsertBySql mysql "INSERT INTO t VALUES (1)" [])
    [VInt 1].

(** [InsertInto("").Values(1)] *)
Definition row_without_table : Insert.InsertStmt :=
  Insert.Values (Insert.InsertInto mysql "") [VInt 1].


(** [Update("users").Set("age", 5).Where("id = ?", 1)] *)
Definition users_age_by_id : Update.UpdateStmt :=
  Update.Where users_age (Expr "id = ?" [VInt 1]).

(** ** The null event receiver (the file without a name) *)

Module Event.

(** Lines 28-31, the package variables.  [logPrintFunc] holds a function
    value or nil; the model names functions by numbers. *)
Record globals : Type := {
  showSQLLevel : Z;
  logPrintFunc : option nat
}.

(** One printed line, with where it goes: to the function in
    [logPrintFunc], or to the console through [fmt.Println]. *)
Inductive printed : Type :=
| ToFunc (f : nat) (line : string)
| ToConsole (line : string).

(** Lines 35-40.  An element of [logPrint] may itself be nil. *)
Definition ShowSQL (g : globals) (level : Z) (logPrint : list (option nat))
    : globals :=
  {| showSQLLevel := level;
     logPrintFunc := match logPrint with
                     | f :: _ => f
                     | [] => logPrintFunc g
                     end |}.

(** An [int64] result, wrapped around. *)
Definition wrap64 (z : Z) : Z := ((z + 2 ^ 63) mod 2 ^ 64 - 2 ^ 63)%Z.

Section WithLibraries.

(** What the Go libraries compute: [%v] of an error value that may be nil,
    the first result of [strconv.Atoi], and the layout-formatted
    [time.Now().Add(d)]. *)
Variable fmt_v : option error -> string.
Variable Atoi : string -> Z.
Variable now_plus : Z -> string.

(** Lines 51, 55, 88: [Event], [EventKv] and [Timing] do nothing. *)
Definition Event (g : globals) (eventName : string) : list printed := [].

Definition EventKv (g : globals) (eventName : string)
    (kvs : gmap string string) : list printed := [].

Definition Timing (g : globals) (eventName : string) (nanoseconds : Z)
    : list printed := [].

(** Line 58 *)
Definition EventErr (g : globals) (eventName : string) (err : option error)
    : list printed * option error := ([], err).

(** Lines 62-85 *)
Definition EventErrKv (g : globals) (eventName : string) (err : option error)
    (kvs : gmap string string) : list printed * option error :=
  (if decide (1 <= showSQLLevel g)%Z then
     let sql := default "" (kvs !! "sql") in
     let '(useStr, use) :=
       match kvs !! "time" with
       | Some s => (s, wrap64 (1000000 * Atoi s))
       | None => ("-", wrap64 (1000000 * 0))
       end in
     let sqlLog :=
       "[ERR " +:+ useStr +:+ "ms] [" +:+ fmt_v err +:+ "] " +:+ sql in
     match logPrintFunc g with
     | Some f => [ToFunc f sqlLog]
     | None =>
         [ToConsole ("[DBR]" +:+ now_plus (wrap64 (- use)) +:+ " " +:+ sqlLog)]
     end
   else [],
   err).

(** Lines 91-104.  [nanoseconds/1e6] is Go's integer division, which
    truncates toward zero. *)
Definition TimingKv (g : globals) (eventName : string) (nanoseconds : Z)
    (kvs : gmap string string) : list printed :=
  if decide (2 <= showSQLLevel g)%Z then
    let sql := default "" (kvs !! "sql") in
    let sqlLog :=
      "[OK " +:+ pretty (Z.quot nanoseconds 1000000) +:+ "ms] " +:+ sql in
    match logPrintFunc g with
    | Some f => [ToFunc f sqlLog]
    | None =>
        [ToConsole
           ("[DBR]" +:+ now_plus (wrap64 (- nanoseconds)) +:+ " " +:+ sqlLog)]
    end
  else [].

End WithLibraries.

End Event.

(** * Part 2: the proofs *)

(** ** Strings and buffers *)

Lemma string_app_cons (c : ascii) (s t : string) :
  String c s +:+ t = String c (s +:+ t).
Proof. reflexivity. Qed.

Lemma string_app_nil_l (s : string) : "" +:+ s = s.
Proof. reflexivity. Qed.

Lemma string_app_assoc (s t u : string) : (s +:+ t) +:+ u = s +:+ (t +:+ u).
Proof.
  induction s as [|c s IH]; [done|].
  rewrite !string_app_cons. by f_equal.
Qed.

Lemma string_app_nil_r (s : string) : s +:+ "" = s.
Proof.
  induction s as [|c s IH]; [done|].
  rewrite string_app_cons. by f_equal.
Qed.

Lemma count_placeholder_app (s t : string) :
  count_placeholder (s +:+ t) = count_placeholder s + count_placeholder t.
Proof.
  induction s as [|c s IH]; [done|].
  rewrite string_app_cons. simpl. rewrite IH. lia.
Qed.

Lemma joined_S (sep : string) (items : list string) (i : nat) :
  joined sep (S i) items = joined sep 1 items.
Proof.
  revert i. induction items as [|x rest IH]; intros i; [done|].
  simpl. by rewrite (IH (S i)), (IH 1).
Qed.

Lemma concat_cons (sep x : string) (rest : list string) :
  String.concat sep (x :: rest) = x +:+ joined sep 1 rest.
Proof.
  revert x. induction rest as [|y rest IH]; intros x.
  - simpl. by rewrite string_app_nil_r.
  - change (String.concat sep (x :: y :: rest))
      with (x +:+ sep +:+ String.concat sep (y :: rest)).
    rewrite IH. simpl. by rewrite (joined_S sep rest 1).
Qed.

Lemma joined_concat (sep : string) (items : list string) :
  joined sep 0 items = String.concat sep items.
Proof.
  destruct items as [|x rest]; [done|].
  rewrite concat_cons. simpl. by rewrite string_app_nil_l.
Qed.

Lemma count_placeholder_joined (sep : string) (items : list string) (i : nat) :
  count_placeholder sep = 0 ->
  count_placeholder (joined sep i items)
  = sum_list (count_placeholder <$> items).
Proof.
  intros Hsep. revert i. induction items as [|x rest IH]; intros i; [done|].
  change (joined sep i (x :: rest))
    with ((if 0 <? i then sep else "") +:+ x +:+ joined sep (S i) rest).
  rewrite !count_placeholder_app, IH, fmap_cons. simpl sum_list.
  destruct (0 <? i); [rewrite Hsep|]; simpl; lia.
Qed.

Ltac str_norm :=
  rewrite ?string_app_assoc, ?string_app_nil_l, ?string_app_nil_r.

Lemma WriteString_app (buf : Buffer) (s t : string) :
  WriteString (WriteString buf s) t = WriteString buf (s +:+ t).
Proof. unfold WriteString. simpl. by rewrite string_app_assoc. Qed.

Lemma WriteString_nil (buf : Buffer) : WriteString buf "" = buf.
Proof. destruct buf. unfold WriteString. simpl. by rewrite string_app_nil_r. Qed.

(** ** INSERT *)

Module InsertFacts.

Import Insert.

Section WithRaw.

(** The collaborators the model leaves open: every lemma below holds for
    each [raw.Build] and each runner. *)
Variable raw_Build : Dialect -> raw -> Buffer -> Buffer * outcome.
Variable RunnerState : Type.
Variable runner_Exec :
  RunnerState -> string -> list value -> RunnerState * (Result + error).

Abbreviation Build := (Insert.Build raw_Build).
Abbreviation Build_times := (Insert.Build_times raw_Build).
Abbreviation loop_state := (Insert.loop_state RunnerState).
Abbreviation exec := (Insert.exec raw_Build runner_Exec).
Abbreviation loop_body := (Insert.loop_body raw_Build runner_Exec).
Abbreviation ExecContext_loop := (Insert.ExecContext_loop raw_Build runner_Exec).
Abbreviation ExecContext := (Insert.ExecContext raw_Build runner_Exec).
Abbreviation ExecContext_at := (Insert.ExecContext_at raw_Build runner_Exec).
Abbreviation loop_reaches := (Insert.loop_reaches raw_Build runner_Exec).
Abbreviation getSQL := (Insert.getSQL raw_Build).
Abbreviation getSQL_at := (Insert.getSQL_at raw_Build).
Abbreviation GetSQL := (Insert.GetSQL raw_Build).

Lemma write_columns_spec (d : Dialect) (cols : list string) :
  forall i buf pb,
    write_columns d i cols buf pb
    = (WriteString buf (joined "," i (QuoteIdent d <$> cols)),
       pb +:+ joined "," i (replicate (length cols) placeholder)).
Proof.
  induction cols as [|col rest IH]; intros i buf pb.
  - simpl. by rewrite WriteString_nil, string_app_nil_r.
  - simpl. rewrite IH.
    destruct (0 <? i); rewrite ?WriteString_app; by str_norm.
Qed.

Lemma write_tuples_spec (runLen : Z) (ps : string) (rows : list (list value)) :
  forall i runnum buf,
    let k := Nat.min (Z.to_nat runLen - i) (length rows) in
    write_tuples runLen ps i rows runnum buf
    = (runnum + k,
       {| buf_String := buf_String buf +:+ joined ", " i (replicate k ps);
          buf_Value := buf_Value buf ++ concat (take k rows) |}).
Proof.
  induction rows as [|tuple rest IH]; intros i runnum buf k.
  - subst k. rewrite Nat.min_0_r. simpl.
    rewrite string_app_nil_r, app_nil_r, Nat.add_0_r. by destruct buf.
  - simpl. destruct (Z.leb_spec runLen (Z.of_nat i)) as [Hle|Hlt].
    + assert (k = 0) as -> by (subst k; lia). simpl.
      rewrite string_app_nil_r, app_nil_r, Nat.add_0_r. by destruct buf.
    + rewrite IH.
      assert (k = S (Nat.min (Z.to_nat runLen - S i) (length rest))) as ->
        by (subst k; simpl; lia).
      simpl. f_equal; [lia|].
      destruct (0 <? i); simpl; str_norm; by rewrite <- app_assoc.
Qed.

Lemma write_returning_spec (d : Dialect) (cols : list string) :
  forall i buf,
    write_returning d i cols buf
    = WriteString buf (joined "," i (QuoteIdent d <$> cols)).
Proof.
  induction cols as [|col rest IH]; intros i buf.
  - simpl. by rewrite WriteString_nil.
  - simpl. rewrite IH.
    destruct (0 <? i); rewrite ?WriteString_app; by str_norm.
Qed.

Lemma default_RunLen (b : InsertStmt) :
  (if decide (RunLen b = 0%Z) then set_RunLen b 1000%Z else b)
  = set_RunLen b (cap b).
Proof. unfold cap. destruct b; simpl. by case_decide. Qed.

Lemma after_Build_0 (b : InsertStmt) : after_Build b 0 = set_RunLen b (cap b).
Proof. by destruct b. Qed.

(** A table and columns, no raw override: the call succeeds, takes
    [chunk_len b] rows, and appends their text and values. *)
Lemma Build_ok (b : InsertStmt) (d : Dialect) (buf : Buffer) :
  Query (raw_ b) = "" -> Table b <> "" -> Column b <> [] ->
  Build b d buf
  = (after_Build b (chunk_len b),
     {| buf_String := buf_String buf +:+ insert_text d b (chunk_len b);
        buf_Value := buf_Value buf ++ concat (take (chunk_len b) (Value b)) |},
     Nil).
Proof.
  intros Hraw Htable Hcol. unfold Insert.Build.
  rewrite default_RunLen. simpl.
  destruct (decide (Query (raw_ b) <> "")) as [?|_]; [done|].
  destruct (decide (Table b = "")) as [?|_]; [done|].
  destruct (decide (length (Column b) = 0)) as [Hlen|_];
    [by destruct (Column b)|].
  rewrite write_columns_spec, write_tuples_spec. simpl.
  rewrite Nat.sub_0_r. fold (chunk_len b).
  unfold after_Build, insert_text, placeholderStr.
  rewrite !joined_concat.
  case_decide.
  - rewrite write_returning_spec, joined_concat. unfold WriteString. simpl.
    by str_norm.
  - unfold WriteString. simpl. by str_norm.
Qed.

Lemma Build_raw (b : InsertStmt) (d : Dialect) (buf : Buffer) :
  Query (raw_ b) <> "" ->
  Build b d buf
  = (set_RunLen b (cap b), (raw_Build d (raw_ b) buf).1, (raw_Build d (raw_ b) buf).2).
Proof.
  intros Hraw. unfold Insert.Build. rewrite default_RunLen. simpl.
  destruct (decide (Query (raw_ b) <> "")) as [_|?]; [|done].
  by destruct (raw_Build d (raw_ b) buf).
Qed.

Lemma Build_no_table (b : InsertStmt) (d : Dialect) (buf : Buffer) :
  Query (raw_ b) = "" -> Table b = "" ->
  Build b d buf = (set_RunLen b (cap b), buf, Err ErrTableNotSpecified).
Proof.
  intros Hraw Htable. unfold Insert.Build. rewrite default_RunLen. simpl.
  destruct (decide (Query (raw_ b) <> "")) as [?|_]; [done|].
  by destruct (decide (Table b = "")).
Qed.

Lemma Build_no_column (b : InsertStmt) (d : Dialect) (buf : Buffer) :
  Query (raw_ b) = "" -> Table b <> "" -> Column b = [] ->
  Build b d buf = (set_RunLen b (cap b), buf, Err ErrColumnNotSpecified).
Proof.
  intros Hraw Htable Hcol. unfold Insert.Build. rewrite default_RunLen. simpl.
  destruct (decide (Query (raw_ b) <> "")) as [?|_]; [done|].
  destruct (decide (Table b = "")) as [?|_]; [done|].
  rewrite Hcol. by destruct (decide (length (@nil string) = 0)).
Qed.

Lemma cap_nonzero (b : InsertStmt) : cap b <> 0%Z.
Proof. unfold cap. case_decide; lia. Qed.

Lemma cap_set_RunLen (b : InsertStmt) : cap (set_RunLen b (cap b)) = cap b.
Proof.
  unfold cap at 1. simpl. case_decide as H; [|done]. by apply cap_nonzero in H.
Qed.

Lemma cap_after_Build (b : InsertStmt) (k : nat) : cap (after_Build b k) = cap b.
Proof. apply cap_set_RunLen. Qed.

Lemma after_Build_ext (b : InsertStmt) (k k' : nat) :
  drop k (Value b) = drop k' (Value b) -> after_Build b k = after_Build b k'.
Proof. unfold after_Build. by intros ->. Qed.

Lemma after_Build_twice (b : InsertStmt) (k m : nat) :
  after_Build (after_Build b k) m = after_Build b (k + m).
Proof.
  unfold after_Build at 1. rewrite cap_after_Build.
  unfold after_Build, set_Value, set_RunLen. simpl. by rewrite drop_drop.
Qed.

Lemma drop_min {A : Type} (l : list A) (c m : nat) :
  drop (Nat.min c (length l) + m) l = drop (c + m) l.
Proof.
  destruct (Nat.le_gt_cases c (length l)) as [Hle|Hgt].
  - by rewrite Nat.min_l.
  - rewrite Nat.min_r by lia. rewrite !drop_ge by lia. done.
Qed.

(** Every compile call leaves the statement as [after_Build] says, for some
    number [k] of rows within the cap; without a raw override those rows'
    values are what the call appends. *)
Lemma Build_general (b : InsertStmt) (d : Dialect) (buf : Buffer) :
  exists k : nat,
    (k <= chunk_len b) /\
    ((Build b d buf).1.1 = after_Build b k) /\
    (Query (raw_ b) = "" ->
     buf_Value (Build b d buf).1.2 = buf_Value buf ++ concat (take k (Value b))).
Proof.
  destruct (decide (Query (raw_ b) = "")) as [Hraw|Hraw].
  - destruct (decide (Table b = "")) as [Htable|Htable].
    { exists 0. rewrite Build_no_table, after_Build_0 by done. simpl.
      rewrite app_nil_r. split; [lia|done]. }
    destruct (decide (Column b = [])) as [Hcol|Hcol].
    { exists 0. rewrite Build_no_column, after_Build_0 by done. simpl.
      rewrite app_nil_r. split; [lia|done]. }
    exists (chunk_len b). by rewrite Build_ok.
  - exists 0. rewrite Build_raw, after_Build_0 by done. simpl.
    split; [lia|]. split; [done|]. by intros ?.
Qed.

Lemma Build_times_S (n : nat) (b : InsertStmt) (d : Dialect) :
  Build_times (S n) b d = (Build (Build_times n b d) d NewBuffer).1.1.
Proof.
  revert b. induction n as [|n IH]; intros b; [done|].
  change (Build_times (S (S n)) b d)
    with (Build_times (S n) (Build b d NewBuffer).1.1 d).
  by rewrite IH.
Qed.

(** With a table and columns and no raw override, [n] compile calls take the
    first [n] cap-sized slices. *)
Lemma Build_times_ok (b : InsertStmt) (d : Dialect) (n : nat) :
  Query (raw_ b) = "" -> Table b <> "" -> Column b <> [] ->
  Build_times (S n) b d = after_Build b (S n * Z.to_nat (cap b)).
Proof.
  intros Hraw Htable Hcol. induction n as [|n IH].
  - simpl. rewrite Build_ok by done. simpl.
    apply after_Build_ext. unfold chunk_len.
    rewrite <- (Nat.add_0_r (Nat.min _ _)), drop_min. f_equal; lia.
  - rewrite Build_times_S, IH. rewrite Build_ok by done. simpl.
    rewrite after_Build_twice. apply after_Build_ext.
    unfold chunk_len. rewrite cap_after_Build. simpl.
    rewrite length_drop.
    set (c := Z.to_nat (cap b)). set (l := Value b).
    destruct (Nat.le_gt_cases (c + n * c + c) (length l)) as [Hle|Hgt].
    + f_equal. lia.
    + rewrite !drop_ge by lia. done.
Qed.

Lemma same_config_after_Build (b : InsertStmt) (k : nat) :
  same_config (after_Build b k) b.
Proof. unfold same_config. rewrite cap_after_Build. by simpl. Qed.

Lemma insert_text_config (d : Dialect) (b0 b : InsertStmt) (k : nat) :
  same_config b0 b -> insert_text d b0 k = insert_text d b k.
Proof.
  intros (_ & Ht & Hc & Hr & _). unfold insert_text, placeholderStr.
  by rewrite Ht, Hc, Hr.
Qed.

Lemma Build_times_general (b : InsertStmt) (d : Dialect) (n : nat) :
  cap (Build_times n b d) = cap b /\
  RunLen (Build_times (S n) b d) = cap b.
Proof.
  induction n as [|n [IH1 IH2]].
  - split; [done|]. simpl.
    destruct (Build_general b d NewBuffer) as (k & _ & -> & _). done.
  - rewrite (Build_times_S (S n)), (Build_times_S n).
    destruct (Build_general (Build_times n b d) d NewBuffer) as (k & _ & -> & _).
    destruct (Build_general (after_Build (Build_times n b d) k) d NewBuffer)
      as (k' & _ & -> & _).
    rewrite !cap_after_Build. simpl. by rewrite cap_after_Build.
Qed.

Lemma Build_times_state (b : InsertStmt) (d : Dialect) (n : nat) :
  Query (raw_ b) = "" -> Table b <> "" -> Column b <> [] ->
  same_config (Build_times n b d) b /\
  Value (Build_times n b d) = drop (n * Z.to_nat (cap b)) (Value b).
Proof.
  intros Hraw Htable Hcol. destruct n as [|n].
  - by split.
  - rewrite Build_times_ok by done. split; [apply same_config_after_Build|done].
Qed.

Lemma count_placeholder_concat (sep : string) (items : list string) :
  count_placeholder sep = 0 ->
  count_placeholder (String.concat sep items)
  = sum_list (count_placeholder <$> items).
Proof. intros Hsep. rewrite <- joined_concat. by apply count_placeholder_joined. Qed.

Lemma sum_list_fmap_zero {A : Type} (f : A -> nat) (l : list A) :
  Forall (fun x => f x = 0) l -> sum_list (f <$> l) = 0.
Proof. induction 1 as [|x l Hx _ IH]; csimpl; lia. Qed.

Lemma count_placeholder_placeholderStr (b : InsertStmt) :
  count_placeholder (placeholderStr b) = length (Column b).
Proof.
  unfold placeholderStr.
  rewrite !count_placeholder_app, count_placeholder_concat by done.
  rewrite fmap_replicate, sum_list_replicate. simpl. lia.
Qed.

Lemma count_placeholder_insert_text (d : Dialect) (b : InsertStmt) (k : nat) :
  Forall (fun name => count_placeholder (QuoteIdent d name) = 0)
    (Table b :: Column b ++ ReturnColumn b) ->
  count_placeholder (insert_text d b k) = length (Column b) * k.
Proof.
  intros Hq. apply Forall_cons in Hq as [Ht Hq].
  apply Forall_app in Hq as [Hc Hr].
  unfold insert_text.
  rewrite !count_placeholder_app, !count_placeholder_concat by done.
  rewrite Ht, fmap_replicate, sum_list_replicate.
  rewrite count_placeholder_placeholderStr.
  rewrite <- list_fmap_compose, sum_list_fmap_zero by done.
  case_decide.
  - rewrite count_placeholder_app, count_placeholder_concat by done.
    rewrite <- list_fmap_compose, sum_list_fmap_zero by done. simpl. lia.
  - simpl. lia.
Qed.

Lemma length_concat_aligned {A : Type} (rows : list (list A)) (n : nat) :
  Forall (fun tuple => length tuple = n) rows ->
  length (concat rows) = n * length rows.
Proof.
  induction 1 as [|tuple rows Ht _ IH]; simpl; [lia|].
  rewrite length_app, IH, Ht. lia.
Qed.

Lemma pending_rows (b : InsertStmt) :
  Value b <> [] <-> 0 < length (Value b).
Proof. destruct (Value b); simpl; split; (done || lia). Qed.

Lemma ExecContext_loop_no_rows (fuel : nat) (s : loop_state) :
  Value (st_b s) = [] ->
  ExecContext_loop fuel s = (s, Some (Return (st_result s) None)).
Proof.
  intros Hv. destruct fuel; simpl; rewrite Hv; simpl;
    by destruct (decide (0 < 0)); [lia|].
Qed.

Lemma ExecContext_loop_turn (fuel : nat) (s s1 : loop_state) :
  Value (st_b s) <> [] -> loop_body s = (s1, None) ->
  ExecContext_loop (S fuel) s = ExecContext_loop fuel s1.
Proof.
  intros Hv%pending_rows Hbody. simpl.
  destruct (decide (0 < length (Value (st_b s)))); [|done].
  by rewrite Hbody.
Qed.

Lemma ExecContext_loop_leave (fuel : nat) (s s1 : loop_state) (x : exit) :
  Value (st_b s) <> [] -> loop_body s = (s1, Some x) ->
  ExecContext_loop (S fuel) s = (s1, Some x).
Proof.
  intros Hv%pending_rows Hbody. simpl.
  destruct (decide (0 < length (Value (st_b s)))); [|done].
  by rewrite Hbody.
Qed.

Lemma ExecContext_loop_reaches (k fuel : nat) (s s' : loop_state) :
  loop_reaches k s s' ->
  ExecContext_loop (k + fuel) s = ExecContext_loop fuel s'.
Proof.
  induction 1 as [|k s s1 s' Hv Hbody _ IH]; [done|].
  change (S k + fuel) with (S (k + fuel)).
  by rewrite (ExecContext_loop_turn _ s s1).
Qed.

Lemma GetSQL_copy (b : positive) (store : gmap positive InsertStmt)
    (stmt : InsertStmt) :
  store !! b = Some stmt ->
  GetSQL b store
  = Some (<[fresh (dom store) := (getSQL stmt (dialect stmt)).1]>
            (<[fresh (dom store) := stmt]> store),
          (getSQL stmt (dialect stmt)).2).
Proof.
  intros Hb. unfold Insert.GetSQL, Insert.getSQL_at. rewrite Hb, lookup_insert_eq.
  by destruct (getSQL stmt (dialect stmt)).
Qed.

Lemma fresh_address_ne (b : positive) (store : gmap positive InsertStmt)
    (stmt : InsertStmt) :
  store !! b = Some stmt -> fresh (dom store) <> b.
Proof.
  intros Hb Heq. apply (is_fresh (dom store)). rewrite Heq.
  apply elem_of_dom. by exists stmt.
Qed.

Lemma exec_after_Build (b : InsertStmt) (rs : RunnerState) :
  exists k : nat, (exec b rs).1.1 = after_Build b k.
Proof.
  unfold Insert.exec.
  destruct (Build_general b (dialect b) NewBuffer) as (k & _ & Hb & _).
  exists k. destruct (Build b (dialect b) NewBuffer) as [[b' buf] o].
  simpl in Hb. subst b'. destruct o; [|done..].
  by destruct (runner_Exec rs (buf_String buf) (buf_Value buf)).
Qed.

Lemma exec_RecordID (b : InsertStmt) (rs : RunnerState) :
  RecordID (exec b rs).1.1 = RecordID b.
Proof. destruct (exec_after_Build b rs) as [k ->]. done. Qed.

Lemma loop_body_no_slot (s : loop_state) :
  RecordID (st_b s) = None ->
  st_mem (loop_body s).1 = st_mem s /\ RecordID (st_b (loop_body s).1) = None.
Proof.
  intros Hid. unfold Insert.loop_body.
  pose proof (exec_RecordID (st_b s) (st_runner s)) as Hexec.
  destruct (exec (st_b s) (st_runner s)) as [[b rs] r]. simpl in Hexec.
  rewrite Hid in Hexec. destruct r; [rewrite Hexec|..]; done.
Qed.

Lemma ExecContext_loop_no_slot (fuel : nat) (s : loop_state) :
  RecordID (st_b s) = None ->
  st_mem (ExecContext_loop fuel s).1 = st_mem s /\
  RecordID (st_b (ExecContext_loop fuel s).1) = None.
Proof.
  revert s. induction fuel as [|fuel IH]; intros s Hid; simpl.
  - by case_decide.
  - case_decide; [|done].
    destruct (loop_body_no_slot s Hid) as [Hmem Hid'].
    destruct (loop_body s) as [s' [x|]]; simpl in *; [done|].
    destruct (IH s' Hid') as [-> ->]. done.
Qed.

(** *** Properties of the compiler and of the loop *)

(** C2 (as amended).  Take a statement with a table, columns and no raw
    override, with effective cap [C], and write [c] for [max C 0].  The
    call number [n] (counting from 0) finds the rows after the first
    [n * c] pending, succeeds, emits exactly [min c (rows pending)] rows,
    namely the next [c]-sized slice of the original list in order, and
    leaves the list advanced past exactly those rows: the original list is
    the rows consumed before, the rows emitted now, and the rows left. *)
Theorem Build_emits_successive_chunks (b : InsertStmt) (d : Dialect) (n : nat) :
  Query (raw_ b) = "" -> Table b <> "" -> Column b <> [] ->
  let c := Z.to_nat (cap b) in
  let pending := drop (n * c) (Value b) in
  let k := Nat.min c (length pending) in
  let call := Build (Build_times n b d) d NewBuffer in
  Value (Build_times n b d) = pending /\
  call.2 = Nil /\
  buf_String call.1.2 = insert_text d b k /\
  buf_Value call.1.2 = concat (take c pending) /\
  length (take c pending) = k /\
  Value call.1.1 = drop k pending /\
  Value b = take (n * c) (Value b) ++ take c pending ++ Value call.1.1.
Proof.
  intros Hraw Htable Hcol c pending k call.
  destruct (Build_times_state b d n Hraw Htable Hcol) as [Hcfg Hval].
  fold c in Hval. fold pending in Hval.
  destruct Hcfg as (Hr & Ht & Hc & Hrc & Hcap).
  assert (chunk_len (Build_times n b d) = k) as Hk.
  { unfold chunk_len. by rewrite Hcap, Hval. }
  subst call. rewrite Build_ok by congruence. simpl.
  rewrite Hk, Hval.
  assert (take k pending = take c pending) as Htake.
  { subst k. destruct (Nat.le_gt_cases c (length pending)).
    - by rewrite Nat.min_l.
    - rewrite Nat.min_r by lia. by rewrite !take_ge by lia. }
  repeat split.
  - by apply insert_text_config.
  - by rewrite Htake.
  - rewrite length_take. lia.
  - rewrite <- Htake, take_drop. subst pending. by rewrite take_drop.
Qed.

(** C4 (as amended).  Without a raw override, when every pending tuple has
    one value per column and no quoted identifier contains the placeholder
    character, one compile call adds [len(Column) * rows] placeholders to
    the text, where [rows] is the number of rows it takes from the pending
    list, and appends the values of those rows, row by row in column order;
    so it adds as many placeholders as arguments. *)
Theorem Build_placeholders_match_values (b : InsertStmt) (d : Dialect)
    (buf : Buffer) :
  Query (raw_ b) = "" ->
  Forall (fun tuple => length tuple = length (Column b)) (Value b) ->
  Forall (fun name => count_placeholder (QuoteIdent d name) = 0)
    (Table b :: Column b ++ ReturnColumn b) ->
  let call := Build b d buf in
  let rows := length (Value b) - length (Value call.1.1) in
  count_placeholder (buf_String call.1.2)
  = count_placeholder (buf_String buf) + length (Column b) * rows /\
  buf_Value call.1.2 = buf_Value buf ++ concat (take rows (Value b)) /\
  count_placeholder (buf_String call.1.2) - count_placeholder (buf_String buf)
  = length (buf_Value call.1.2) - length (buf_Value buf).
Proof.
  intros Hraw Haligned Hquote call rows. subst call rows.
  destruct (decide (Table b = "")) as [Htable|Htable].
  { rewrite Build_no_table by done. simpl.
    rewrite Nat.sub_diag, Nat.mul_0_r, app_nil_r.
    repeat split; lia. }
  destruct (decide (Column b = [])) as [Hcol|Hcol].
  { rewrite Build_no_column by done. simpl.
    rewrite Nat.sub_diag, Nat.mul_0_r, app_nil_r.
    repeat split; lia. }
  rewrite Build_ok by done. simpl.
  rewrite length_drop.
  assert (length (Value b) - (length (Value b) - chunk_len b) = chunk_len b)
    as -> by (unfold chunk_len; lia).
  rewrite count_placeholder_app, count_placeholder_insert_text by done.
  rewrite length_app.
  rewrite (length_concat_aligned _ (length (Column b)))
    by (by apply Forall_take).
  rewrite length_take.
  assert (Nat.min (chunk_len b) (length (Value b)) = chunk_len b)
    as -> by (unfold chunk_len; lia).
  repeat split; lia.
Qed.

(** C8.  When [RunLen] is zero as [Build] is called, that call stores 1000
    in it, the effective cap of the statement is 1000 at that call and at
    every later one, and each of these calls takes at most 1000 rows from
    the pending list, the rows whose values it appends. *)
Theorem Build_default_cap (b : InsertStmt) (d : Dialect) (n : nat) :
  RunLen b = 0%Z ->
  cap (Build_times n b d) = 1000%Z /\
  RunLen (Build_times (S n) b d) = 1000%Z /\
  exists k : nat,
    (k <= 1000) /\
    (Value (Build_times (S n) b d) = drop k (Value (Build_times n b d))) /\
    (Query (raw_ b) = "" ->
     buf_Value (Build (Build_times n b d) d NewBuffer).1.2
     = concat (take k (Value (Build_times n b d)))).
Proof.
  intros Hzero.
  assert (cap b = 1000%Z) as Hcap by (unfold cap; by case_decide).
  destruct (Build_times_general b d n) as [Hc Hr].
  rewrite Hc, Hr, Hcap. split; [done|]. split; [done|].
  destruct (Build_general (Build_times n b d) d NewBuffer) as (k & Hk & Hb & Hv).
  exists k. split; [|split].
  - unfold chunk_len in Hk. rewrite Hc, Hcap in Hk. lia.
  - by rewrite Build_times_S, Hb.
  - intros Hraw. apply Hv.
    clear -Hraw. induction n as [|n IH]; [done|].
    rewrite Build_times_S.
    destruct (Build_general (Build_times n b d) d NewBuffer) as (k & _ & -> & _).
    done.
Qed.

Lemma cap_set_RecordID (b : InsertStmt) (p : option positive) :
  cap (set_RecordID b p) = cap b.
Proof. done. Qed.

(** With a table, columns, no raw override and a positive cap, every turn
    takes at least one row: fuel for one turn per pending row is enough for
    the loop to leave. *)
Lemma ExecContext_loop_terminates (fuel : nat) :
  forall s : loop_state,
    Query (raw_ (st_b s)) = "" -> Table (st_b s) <> "" ->
    Column (st_b s) <> [] -> (0 < cap (st_b s))%Z ->
    length (Value (st_b s)) <= fuel ->
    is_Some (ExecContext_loop fuel s).2.
Proof.
  induction fuel as [|fuel IH]; intros s Hraw Htable Hcol Hcap Hlen; simpl.
  - case_decide; [lia|]. by eexists.
  - case_decide as Hrows; [|by eexists].
    unfold Insert.loop_body, Insert.exec. rewrite Build_ok by done.
    destruct (runner_Exec _ _ _) as [rs [res|e]]; [|by eexists].
    assert (length (drop (chunk_len (st_b s)) (Value (st_b s))) <= fuel) as Hdrop.
    { rewrite length_drop. unfold chunk_len. lia. }
    destruct (RecordID (after_Build (st_b s) (chunk_len (st_b s))));
      apply IH; simpl; rewrite ?cap_set_RecordID, ?cap_after_Build; done.
Qed.

(** C3.  Let the loop make [k] turns that each execute their chunk without
    error, and let rows still be pending.  If executing the next chunk
    returns an error, [ExecContext] returns a nil result and that error, and
    the runner is left as that failing call left it: nothing is sent after
    it and nothing is retried.  If instead it succeeds and no row is left,
    [ExecContext] returns that last result and a nil error. *)
Theorem ExecContext_stops_at_first_error (k fuel : nat) (s0 s : loop_state) :
  loop_reaches k s0 s -> Value (st_b s) <> [] -> k < fuel ->
  (forall b' rs' e,
     exec (st_b s) (st_runner s) = (b', rs', ExecErr e) ->
     ExecContext_loop fuel s0
     = ({| st_b := b'; st_result := st_result s; st_runner := rs';
           st_mem := st_mem s |},
        Some (Return None (Some e)))) /\
  (forall b' rs' res,
     exec (st_b s) (st_runner s) = (b', rs', ExecOk res) ->
     Value b' = [] ->
     (ExecContext_loop fuel s0).2 = Some (Return (Some res) None) /\
     st_runner (ExecContext_loop fuel s0).1 = rs').
Proof.
  intros Hreach Hv Hfuel.
  replace fuel with (k + S (fuel - S k)) by lia.
  rewrite (ExecContext_loop_reaches _ _ _ _ Hreach). split.
  - intros b' rs' e Hexec.
    apply ExecContext_loop_leave; [done|].
    unfold Insert.loop_body. by rewrite Hexec.
  - intros b' rs' res Hexec Hnone.
    assert (exists s1, loop_body s = (s1, None) /\ Value (st_b s1) = [] /\
                       st_result s1 = Some res /\ st_runner s1 = rs')
      as (s1 & Hbody & Hv1 & Hres & Hrs).
    { unfold Insert.loop_body. rewrite Hexec.
      destruct (RecordID b'); eexists; (split; [done|]); by simpl. }
    rewrite (ExecContext_loop_turn _ s s1) by done.
    rewrite ExecContext_loop_no_rows by done. simpl. by rewrite Hres.
Qed.

(** C7 (as amended).  Let [RecordID] point to a slot when a turn of the loop
    starts, with rows pending, and let the chunk execute without error.
    Then, however long the loop goes on, the slot pointer is cleared, and
    the caller's memory is the memory of that moment with one change at
    most: the slot holds the generated id when [LastInsertId] gave one, and
    is untouched when [LastInsertId] returned an error.  No later chunk
    writes to it. *)
Theorem ExecContext_writes_RecordID_once (fuel : nat) (s : loop_state)
    (p : positive) (b' : InsertStmt) (rs' : RunnerState) (res : Result) :
  RecordID (st_b s) = Some p -> Value (st_b s) <> [] ->
  exec (st_b s) (st_runner s) = (b', rs', ExecOk res) ->
  RecordID (st_b (ExecContext_loop (S fuel) s).1) = None /\
  st_mem (ExecContext_loop (S fuel) s).1
  = match LastInsertId res with
    | inl id => <[p := id]> (st_mem s)
    | inr _ => st_mem s
    end.
Proof.
  intros Hid Hv Hexec.
  pose proof (exec_RecordID (st_b s) (st_runner s)) as Hid'.
  rewrite Hexec, Hid in Hid'. simpl in Hid'.
  set (s1 := {| st_b := set_RecordID b' None; st_result := Some res;
                st_runner := rs';
                st_mem := match LastInsertId res with
                          | inl id => <[p := id]> (st_mem s)
                          | inr _ => st_mem s
                          end |}).
  assert (loop_body s = (s1, None)) as Hbody.
  { unfold Insert.loop_body. by rewrite Hexec, Hid'. }
  rewrite (ExecContext_loop_turn _ s s1) by done.
  destruct (ExecContext_loop_no_slot fuel s1) as [-> ->]; done.
Qed.

(** C9.  With no pending row, [ExecContext] leaves at once: the runner is
    not called (its state is unchanged), the statement and the memory are
    unchanged, and the call returns a nil result and a nil error.  A
    statement made by [InsertBySql] is such a statement. *)
Theorem ExecContext_no_pending_rows (fuel : nat) (b : InsertStmt)
    (rs : RunnerState) (mem : gmap positive Z) :
  Value b = [] ->
  ExecContext fuel b rs mem
  = ({| st_b := b; st_result := None; st_runner := rs; st_mem := mem |},
     Some (Return None None)).
Proof. intros Hv. unfold Insert.ExecContext. by rewrite ExecContext_loop_no_rows. Qed.

Lemma ExecContext_InsertBySql (fuel : nat) (d : Dialect) (query : string)
    (value : list value) (rs : RunnerState) (mem : gmap positive Z) :
  (ExecContext fuel (InsertBySql d query value) rs mem).2
  = Some (Return None None) /\
  st_runner (ExecContext fuel (InsertBySql d query value) rs mem).1 = rs.
Proof. unfold Insert.ExecContext. by rewrite ExecContext_loop_no_rows. Qed.

(** C10.  [GetSQL] on a statement in the store compiles a copy placed at a
    fresh address: the call succeeds and leaves the original object, its
    pending rows and its [RunLen] included, as it was; a second call returns
    the same text and outcome; and [ExecContext] through the same pointer
    behaves after the call as it would have before it. *)
Theorem GetSQL_leaves_statement (b : positive)
    (store : gmap positive InsertStmt) (stmt : InsertStmt) (fuel : nat)
    (rs : RunnerState) (mem : gmap positive Z) :
  store !! b = Some stmt ->
  exists store' r,
    GetSQL b store = Some (store', r) /\
    store' !! b = Some stmt /\
    (exists store'', GetSQL b store' = Some (store'', r)) /\
    ExecContext_at fuel b store' rs mem = ExecContext_at fuel b store rs mem.
Proof.
  intros Hb. pose proof (fresh_address_ne b store stmt Hb) as Hne.
  eexists _, _. split; [by apply GetSQL_copy|].
  assert ((<[fresh (dom store) := (getSQL stmt (dialect stmt)).1]>
             (<[fresh (dom store) := stmt]> store)) !! b = Some stmt) as Hb'.
  { by rewrite !lookup_insert_ne. }
  split; [done|]. split.
  - eexists. by apply GetSQL_copy.
  - unfold Insert.ExecContext_at. by rewrite Hb', Hb.
Qed.

(** *** More of the compiler *)

(** X1.  With a table, columns and no raw override, [Build] returns nil and
    appends exactly: INSERT INTO, the quoted table, the quoted columns
    between parentheses and joined by commas, VALUES, one parenthesised
    group of one placeholder per column for each row it takes, joined by
    ", ", and, when returning columns are set, RETURNING with those
    columns quoted, in their order, joined by commas. *)
Theorem Build_text (b : InsertStmt) (d : Dialect) (buf : Buffer) :
  Query (raw_ b) = "" -> Table b <> "" -> Column b <> [] ->
  let rows := Nat.min (Z.to_nat (cap b)) (length (Value b)) in
  let group :=
    "(" +:+ String.concat "," (replicate (length (Column b)) "?") +:+ ")" in
  (Build b d buf).2 = Nil /\
  buf_String (Build b d buf).1.2
  = buf_String buf +:+ "INSERT INTO " +:+ QuoteIdent d (Table b) +:+ " ("
    +:+ String.concat "," (QuoteIdent d <$> Column b) +:+ ") VALUES "
    +:+ String.concat ", " (replicate rows group)
    +:+ match ReturnColumn b with
        | [] => ""
        | _ :: _ =>
            " RETURNING "
            +:+ String.concat "," (QuoteIdent d <$> ReturnColumn b)
        end.
Proof.
  intros Hraw Htable Hcol rows group. rewrite Build_ok by done. simpl.
  split; [done|]. unfold insert_text, placeholderStr, chunk_len.
  fold rows. fold group. by destruct (ReturnColumn b).
Qed.

(** X2.  Whatever the statement, the raw builder and the outcome, a call of
    [Build] leaves the raw override, the table, the columns, the returning
    columns, the [RecordID] pointer and the dialect alone; it stores the
    effective cap in [RunLen], and the pending list it leaves is the old
    one without some leading rows: rows are never added or reordered. *)
Theorem Build_keeps_configuration (b : InsertStmt) (d : Dialect)
    (buf : Buffer) :
  raw_ (Build b d buf).1.1 = raw_ b /\
  Table (Build b d buf).1.1 = Table b /\
  Column (Build b d buf).1.1 = Column b /\
  ReturnColumn (Build b d buf).1.1 = ReturnColumn b /\
  RecordID (Build b d buf).1.1 = RecordID b /\
  dialect (Build b d buf).1.1 = dialect b /\
  RunLen (Build b d buf).1.1 = cap b /\
  exists k, Value (Build b d buf).1.1 = drop k (Value b).
Proof.
  destruct (Build_general b d buf) as (k & _ & -> & _).
  repeat split. by exists k.
Qed.

(** X3.  [GetSQL] on a statement with a table, columns and no raw override
    returns, with a nil error, the text of the next chunk only: the number
    of row groups is the smaller of the effective cap and the number of
    pending rows, and it is zero, with no error, when no row is pending. *)
Theorem GetSQL_shows_next_chunk (p : positive)
    (store : gmap positive InsertStmt) (stmt : InsertStmt) :
  store !! p = Some stmt ->
  Query (raw_ stmt) = "" -> Table stmt <> "" -> Column stmt <> [] ->
  snd <$> GetSQL p store
  = Some (insert_text (dialect stmt) stmt
            (Nat.min (Z.to_nat (cap stmt)) (length (Value stmt))), Nil).
Proof.
  intros Hp Hraw Htable Hcol. rewrite (GetSQL_copy p store stmt Hp). simpl.
  unfold Insert.getSQL. by rewrite Build_ok.
Qed.

(** *** Pair and Map *)

Lemma Map_range_spec (visited : list (string * value)) :
  forall column vals,
    Map_range visited column vals = (column ++ visited.*1, vals ++ visited.*2).
Proof.
  induction visited as [|[k v] rest IH]; intros column vals; simpl.
  - by rewrite !app_nil_r.
  - rewrite IH. by rewrite <- !app_assoc.
Qed.

Lemma Map_columns_spec (kv : gmap string value) (cols : list string) :
  forall vals,
    Map_columns kv cols vals
    = vals ++ ((fun col => default VNil (kv !! col)) <$> cols).
Proof.
  induction cols as [|col rest IH]; intros vals; simpl.
  - by rewrite app_nil_r.
  - rewrite IH. by rewrite <- app_assoc.
Qed.

Lemma Pair_spec (b : InsertStmt) (column : string) (v : value) :
  pair_built b ->
  Pair b column v
  = (set_Value (Columns b (Column b ++ [column])) [concat (Value b) ++ [v]],
     None) /\
  pair_built (Pair b column v).1.
Proof.
  intros [[Hc Hv]|(tuple & Hv & Hlen)]; unfold Pair, Values; simpl;
    rewrite !Hv; simpl.
  - split; [done|]. right. exists [v]. simpl. by rewrite Hc.
  - rewrite app_nil_r. split; [done|]. right. exists (tuple ++ [v]).
    simpl. split; [done|]. by rewrite !length_app, Hlen.
Qed.

Lemma Pairs_spec (pairs : list (string * value)) :
  forall b column v,
    pair_built b ->
    Pairs b ((column, v) :: pairs)
    = (set_Value (Columns b (Column b ++ column :: pairs.*1))
         [concat (Value b) ++ v :: pairs.*2],
       None).
Proof.
  induction pairs as [|[c w] rest IH]; intros b column v Hb.
  - simpl. destruct (Pair_spec b column v Hb) as [-> _]. done.
  - change (Pairs b ((column, v) :: (c, w) :: rest))
      with (match Pair b column v with
            | (b, None) => Pairs b ((c, w) :: rest)
            | (b, Some msg) => (b, Some msg)
            end).
    destruct (Pair_spec b column v Hb) as [Heq Hb1]. rewrite Heq in Hb1 |- *.
    simpl in Hb1. rewrite (IH _ c w Hb1). simpl.
    rewrite app_nil_r, <- !app_assoc. done.
Qed.

(** X4.  On a statement that holds no column and no row, or one row with a
    value for each column, [Pair] does not panic; it appends the column to
    the columns and the value to the single row, so the statement is again
    of that shape. *)
Theorem Pair_keeps_single_row (b : InsertStmt) (column : string) (v : value) :
  pair_built b ->
  Pair b column v
  = (set_Value (Columns b (Column b ++ [column])) [concat (Value b) ++ [v]],
     None) /\
  pair_built (Pair b column v).1.
Proof. apply Pair_spec. Qed.

(** X5.  A chain of [Pair] calls on a statement fresh from [InsertInto]
    never panics and gives the columns and the single row of values in the
    order of the calls, with nothing else changed; compiled, that row
    binds as many values as the text has placeholders. *)
Theorem Pairs_from_InsertInto (d : Dialect) (table : string)
    (column : string) (v : value) (pairs : list (string * value)) :
  Pairs (InsertInto d table) ((column, v) :: pairs)
  = (set_Value
       (Columns (InsertInto d table) (column :: pairs.*1))
       [v :: pairs.*2],
     None) /\
  Forall (fun tuple => length tuple = length (column :: pairs.*1))
    (Value (Pairs (InsertInto d table) ((column, v) :: pairs)).1).
Proof.
  assert (pair_built (InsertInto d table)) as Hb by (by left).
  rewrite (Pairs_spec pairs _ column v Hb). simpl. split; [done|].
  constructor; [|done]. simpl. by rewrite !length_fmap.
Qed.

(** X6.  After two [Values] calls [Pair] panics, and the column it was
    given stays appended to the columns. *)
Theorem Pair_after_two_rows_panics (b : InsertStmt) (r1 r2 : list value)
    (column : string) (v : value) :
  exists msg,
    Pair (Values (Values b r1) r2) column v
    = (Columns (Values (Values b r1) r2) (Column b ++ [column]), Some msg).
Proof.
  eexists. unfold Pair. simpl.
  by destruct (Value b) as [|t1 [|t2 rest]].
Qed.

(** X7.  When columns are set, [Map] leaves them alone and appends one row
    with exactly one value per column, in column order: the map's value
    for the column, or nil when the map has no such key.  Keys of the map
    that are no column are ignored, and the order in which the map is
    visited plays no part. *)
Theorem Map_with_columns
    (range_order : gmap string value -> list (string * value))
    (b : InsertStmt) (kv : gmap string value) :
  Column b <> [] ->
  Map range_order b kv
  = set_Value b
      (Value b ++ [(fun col => default VNil (kv !! col)) <$> Column b]) /\
  length ((fun col => default VNil (kv !! col)) <$> Column b)
  = length (Column (Map range_order b kv)).
Proof.
  intros Hcol. unfold Map.
  destruct (decide (length (Column b) = 0)) as [Hlen|_].
  { by destruct (Column b). }
  rewrite Map_columns_spec. simpl. by rewrite length_fmap.
Qed.

(** X8.  When no column is set, [Map] takes the columns from the map: in
    whatever order the map is visited, the columns become the keys, each
    once, the appended row holds their values in the same order, and
    pairing the columns with that row gives the map back. *)
Theorem Map_without_columns
    (range_order : gmap string value -> list (string * value))
    (b : InsertStmt) (kv : gmap string value) :
  Column b = [] -> range_order kv ≡ₚ map_to_list kv ->
  exists row,
    Value (Map range_order b kv) = Value b ++ [row] /\
    length row = length (Column (Map range_order b kv)) /\
    NoDup (Column (Map range_order b kv)) /\
    Column (Map range_order b kv) ≡ₚ (map_to_list kv).*1 /\
    list_to_map (zip (Column (Map range_order b kv)) row) = kv.
Proof.
  intros Hcol Hperm. unfold Map. rewrite Hcol. simpl.
  rewrite Map_range_spec. simpl. exists (range_order kv).*2.
  split; [done|]. split; [by rewrite !length_fmap|].
  assert (NoDup (range_order kv).*1) as Hnodup.
  { rewrite Hperm. apply NoDup_fst_map_to_list. }
  split; [done|]. split; [by rewrite Hperm|].
  rewrite zip_fst_snd.
  rewrite (list_to_map_proper _ _ Hnodup Hperm).
  apply list_to_map_to_list.
Qed.

(** *** More of the loop *)



(** X10.  With a table, columns and no raw override, when the runner fails
    on a chunk, [ExecContext] returns that error and the rows of the failed
    chunk are gone from the pending list all the same: the statement is
    left with the rows after that chunk, so running it again does not send
    the failed rows a second time. *)
Theorem ExecContext_drops_failed_chunk (fuel : nat) (s : loop_state)
    (rs' : RunnerState) (e : error) :
  let b := st_b s in
  Query (raw_ b) = "" -> Table b <> "" -> Column b <> [] -> Value b <> [] ->
  runner_Exec (st_runner s) (insert_text (dialect b) b (chunk_len b))
    (concat (take (chunk_len b) (Value b)))
  = (rs', inr e) ->
  ExecContext_loop (S fuel) s
  = ({| st_b := set_Value (set_RunLen b (cap b))
                  (drop (chunk_len b) (Value b));
        st_result := st_result s; st_runner := rs'; st_mem := st_mem s |},
     Some (Return None (Some e))).
Proof.
  intros b Hraw Htable Hcol Hv Hrun.
  apply ExecContext_loop_leave; [done|].
  unfold Insert.loop_body, Insert.exec. fold b.
  rewrite Build_ok by done. simpl. by rewrite string_app_nil_l, Hrun.
Qed.

(** X11.  With no raw override, a statement without a table, or with a
    table and without columns, never reaches the runner: with rows pending,
    [ExecContext] returns the error of the validation at once, the runner
    and the pending rows are as before, and only [RunLen] has taken the
    effective cap. *)
Theorem ExecContext_configuration_error (fuel : nat) (s : loop_state) :
  let b := st_b s in
  Query (raw_ b) = "" -> Table b = "" \/ Column b = [] -> Value b <> [] ->
  ExecContext_loop (S fuel) s
  = ({| st_b := set_RunLen b (cap b); st_result := st_result s;
        st_runner := st_runner s; st_mem := st_mem s |},
     Some (Return None
             (Some (if decide (Table b = "") then ErrTableNotSpecified
                    else ErrColumnNotSpecified)))).
Proof.
  intros b Hraw Hcfg Hv.
  apply ExecContext_loop_leave; [done|].
  unfold Insert.loop_body, Insert.exec. fold b.
  destruct (decide (Table b = "")) as [Ht|Ht].
  - by rewrite Build_no_table.
  - destruct Hcfg as [?|Hc]; [done|]. by rewrite Build_no_column.
Qed.

End WithRaw.

(** *** What the runner is sent *)

Section Logged.

Variable raw_Build : Dialect -> raw -> Buffer -> Buffer * outcome.
Variable RunnerState : Type.
Variable runner_Exec :
  RunnerState -> string -> list value -> RunnerState * (Result + error).

Abbreviation run := (Insert.ExecContext_loop raw_Build (logged runner_Exec)).
Abbreviation turn := (Insert.loop_body raw_Build (logged runner_Exec)).

Lemma take_min {A : Type} (c : nat) (l : list A) :
  take (Nat.min c (length l)) l = take c l.
Proof.
  destruct (Nat.le_gt_cases c (length l)).
  - by rewrite Nat.min_l.
  - rewrite Nat.min_r by lia. by rewrite !take_ge by lia.
Qed.

Lemma drop_min_0 {A : Type} (c : nat) (l : list A) :
  drop (Nat.min c (length l)) l = drop c l.
Proof.
  destruct (Nat.le_gt_cases c (length l)).
  - by rewrite Nat.min_l.
  - rewrite Nat.min_r by lia. by rewrite !drop_ge by lia.
Qed.

Lemma sent_chunks_config (d : Dialect) (b0 b : InsertStmt) (c n : nat) :
  same_config b0 b ->
  forall rows, sent_chunks d b0 c n rows = sent_chunks d b c n rows.
Proof.
  intros Hcfg. induction n as [|n IH]; intros rows; simpl; [done|].
  destruct rows; [done|]. by rewrite IH, (insert_text_config d b0 b).
Qed.

Lemma sent_chunks_all (d : Dialect) (b : InsertStmt) (c n : nat) :
  0 < c ->
  forall rows,
    length rows <= n ->
    concat (snd <$> sent_chunks d b c n rows) = concat rows.
Proof.
  intros Hc. induction n as [|n IH]; intros rows Hlen.
  - destruct rows; simpl in *; [done|lia].
  - destruct rows as [|row rest]; [done|].
    change (sent_chunks d b c (S n) (row :: rest))
      with ((insert_text d b (Nat.min c (length (row :: rest))),
             concat (take c (row :: rest)))
            :: sent_chunks d b c n (drop c (row :: rest))).
    rewrite fmap_cons. simpl concat at 1. change ((_, ?x).2) with x.
    rewrite IH.
    + by rewrite <- concat_app, take_drop.
    + rewrite length_drop. simpl in *. lia.
Qed.

(** One turn on a statement with a table, columns and no raw override,
    when the runner succeeds. *)
Lemma turn_sends_chunk (s : Insert.loop_state (RunnerState * list (string * list value))) :
  let b := st_b s in
  Query (raw_ b) = "" -> Table b <> "" -> Column b <> [] ->
  never_fails runner_Exec ->
  exists s1,
    turn s = (s1, None) /\
    same_config (st_b s1) b /\
    dialect (st_b s1) = dialect b /\
    RunLen (st_b s1) = cap b /\
    Value (st_b s1) = drop (chunk_len b) (Value b) /\
    is_Some (st_result s1) /\
    (st_runner s1).2
    = (st_runner s).2
      ++ [(insert_text (dialect b) b (chunk_len b),
           concat (take (chunk_len b) (Value b)))].
Proof.
  intros b Hraw Htable Hcol Hok.
  unfold Insert.loop_body, Insert.exec. fold b.
  rewrite Build_ok by done. simpl. rewrite string_app_nil_l. unfold logged.
  destruct (Hok (st_runner s).1 (insert_text (dialect b) b (chunk_len b))
              (concat (take (chunk_len b) (Value b)))) as (rs' & res & ->).
  destruct (RecordID (after_Build b (chunk_len b))); eexists;
    (split; [done|]); simpl;
    (split; [apply same_config_after_Build|]); by repeat split.
Qed.

(** X12.  With a table, columns, no raw override and a positive cap, when
    no execution fails, fuel for one turn per pending row is enough for
    [ExecContext] to return, with a nil error and a result; no row is left
    pending; and the runner has been sent, in order, one statement for each
    cap-sized slice of the pending rows, whose arguments put end to end are
    the values of all the rows, each once and in order. *)
Theorem ExecContext_sends_every_row_once (fuel : nat) :
  forall s : Insert.loop_state (RunnerState * list (string * list value)),
    let b := st_b s in
    Query (raw_ b) = "" -> Table b <> "" -> Column b <> [] ->
    (0 < cap b)%Z -> never_fails runner_Exec ->
    length (Value b) <= fuel ->
    (run fuel s).2 = Some (Return (st_result (run fuel s).1) None) /\
    (Value b <> [] -> is_Some (st_result (run fuel s).1)) /\
    Value (st_b (run fuel s).1) = [] /\
    (st_runner (run fuel s).1).2
    = (st_runner s).2
      ++ sent_chunks (dialect b) b (Z.to_nat (cap b)) fuel (Value b) /\
    concat (snd <$> sent_chunks (dialect b) b (Z.to_nat (cap b)) fuel (Value b))
    = concat (Value b).
Proof.
  induction fuel as [|fuel IH]; intros s b Hraw Htable Hcol Hcap Hok Hlen.
  - assert (Value b = []) as Hv by (destruct (Value b); simpl in *; [done|lia]).
    rewrite ExecContext_loop_no_rows by done. simpl. rewrite Hv.
    by rewrite app_nil_r.
  - destruct (decide (Value b = [])) as [Hv|Hv].
    { rewrite ExecContext_loop_no_rows by done. simpl. rewrite Hv.
      by rewrite app_nil_r. }
    destruct (turn_sends_chunk s Hraw Htable Hcol Hok)
      as (s1 & Hturn & Hcfg & Hd & Hrl & Hval & Hres & Hlog).
    fold b in Hcfg, Hd, Hrl, Hval, Hlog.
    rewrite (ExecContext_loop_turn raw_Build _ (logged runner_Exec) fuel s s1)
      by done.
    pose proof Hcfg as (Hr1 & Ht1 & Hc1 & Hrc1 & Hcap1).
    assert (0 < chunk_len b) as Hk.
    { unfold chunk_len. destruct (Value b); simpl; [done|lia]. }
    destruct (IH s1) as (Hexit & Hsome & Hnil & Hsent & _);
      [congruence|congruence|congruence|by rewrite Hcap1|done
      |rewrite Hval, length_drop; lia|].
    split; [done|]. split.
    { intros _. destruct (decide (Value (st_b s1) = [])) as [Hv1|Hv1];
        [|by apply Hsome].
      by rewrite ExecContext_loop_no_rows by done. }
    split; [done|]. split.
    + rewrite Hsent, Hlog, Hd, Hcap1, Hval, <- app_assoc. f_equal.
      rewrite (sent_chunks_config _ _ b) by done.
      unfold chunk_len. rewrite take_min, drop_min_0.
      destruct (Value b) as [|row rest] eqn:Hrows; [done|]. done.
    + apply sent_chunks_all; lia.
Qed.

(** X13.  A raw override next to pending rows makes [ExecContext] loop for
    ever when the raw fragment compiles and no execution fails: however
    much fuel it is given the call has not returned, the pending rows are
    untouched, and the runner has been sent the raw statement once per
    turn. *)
Theorem ExecContext_raw_override_never_returns (fuel : nat) (buf : Buffer) :
  forall s : Insert.loop_state (RunnerState * list (string * list value)),
    let b := st_b s in
    Query (raw_ b) <> "" -> Value b <> [] ->
    raw_Build (dialect b) (raw_ b) NewBuffer = (buf, Nil) ->
    never_fails runner_Exec ->
    (run fuel s).2 = None /\
    Value (st_b (run fuel s).1) = Value b /\
    (st_runner (run fuel s).1).2
    = (st_runner s).2 ++ replicate fuel (buf_String buf, buf_Value buf).
Proof.
  induction fuel as [|fuel IH]; intros s b Hraw Hv Hbuild Hok.
  - simpl. destruct (decide (0 < length (Value (st_b s)))) as [_|Hn].
    + simpl. by rewrite app_nil_r.
    + exfalso. apply Hn. by apply pending_rows.
  - assert (exists s1, turn s = (s1, None) /\
              raw_ (st_b s1) = raw_ b /\ dialect (st_b s1) = dialect b /\
              Value (st_b s1) = Value b /\
              (st_runner s1).2
              = (st_runner s).2 ++ [(buf_String buf, buf_Value buf)])
      as (s1 & Hturn & Hr1 & Hd1 & Hv1 & Hlog).
    { unfold Insert.loop_body, Insert.exec. fold b.
      rewrite Build_raw by done. rewrite Hbuild. simpl. unfold logged.
      destruct (Hok (st_runner s).1 (buf_String buf) (buf_Value buf))
        as (rs' & res & ->).
      destruct (RecordID (set_RunLen b (cap b))); eexists; by repeat split. }
    rewrite (ExecContext_loop_turn raw_Build _ (logged runner_Exec) fuel s s1)
      by done.
    destruct (IH s1) as (Hexit & Hval & Hsent);
      [by rewrite Hr1|by rewrite Hv1|by rewrite Hd1, Hr1|done|].
    split; [done|]. split; [congruence|].
    rewrite Hsent, Hlog, <- app_assoc. done.
Qed.

(** X14.  A negative [RunLen], which [SetRunLen] accepts, makes
    [ExecContext] loop for ever on a statement with a table, columns and
    pending rows when no execution fails: every turn takes no row and sends
    the statement with an empty VALUES list, and the call never returns. *)
Theorem ExecContext_negative_cap_never_returns (fuel : nat) :
  forall s : Insert.loop_state (RunnerState * list (string * list value)),
    let b := st_b s in
    Query (raw_ b) = "" -> Table b <> "" -> Column b <> [] ->
    (RunLen b < 0)%Z -> Value b <> [] ->
    never_fails runner_Exec ->
    (run fuel s).2 = None /\
    Value (st_b (run fuel s).1) = Value b /\
    (st_runner (run fuel s).1).2
    = (st_runner s).2 ++ replicate fuel (insert_text (dialect b) b 0, []).
Proof.
  induction fuel as [|fuel IH]; intros s b Hraw Htable Hcol Hneg Hv Hok.
  - simpl. destruct (decide (0 < length (Value (st_b s)))) as [_|Hn].
    + simpl. by rewrite app_nil_r.
    + exfalso. apply Hn. by apply pending_rows.
  - assert (cap b = RunLen b) as Hcap by (unfold cap; case_decide; lia).
    assert (chunk_len b = 0) as Hk by (unfold chunk_len; lia).
    destruct (turn_sends_chunk s Hraw Htable Hcol Hok)
      as (s1 & Hturn & Hcfg & Hd & Hrl & Hval & _ & Hlog).
    fold b in Hcfg, Hd, Hrl, Hval, Hlog. rewrite Hk in Hval, Hlog.
    simpl in Hval, Hlog.
    pose proof Hcfg as (Hr1 & Ht1 & Hc1 & Hrc1 & Hcap1).
    rewrite (ExecContext_loop_turn raw_Build _ (logged runner_Exec) fuel s s1)
      by done.
    destruct (IH s1) as (Hexit & Hval' & Hsent);
      [by rewrite Hr1|by rewrite Ht1|by rewrite Hc1|by rewrite Hrl, Hcap
      |by rewrite Hval|done|].
    split; [done|]. split; [by rewrite Hval', Hval|].
    rewrite Hsent, Hlog, Hd, <- app_assoc.
    by rewrite (insert_text_config (dialect b) (st_b s1) b 0 Hcfg).
Qed.

End Logged.

End InsertFacts.

(** ** Conditions *)

Lemma build_children_Err (d : Dialect) (sep : string) (children : list Builder)
    (e : error) :
  forall i buf,
    (build_children d sep i children buf).2 = Err e ->
    exists c buf', c ∈ children /\ (c d buf').2 = Err e.
Proof.
  induction children as [|c rest IH]; intros i buf; simpl; [done|].
  destruct (c d (if 0 <? i then WriteString buf sep else buf))
    as [buf1 o] eqn:Hc.
  destruct o as [|e'|msg]; simpl.
  - intros (c' & buf' & Hin & He)%IH. exists c', buf'. split; [|done].
    by apply list_elem_of_further.
  - intros [= ->]. eexists c, _. split; [apply list_elem_of_here|].
    by rewrite Hc.
  - done.
Qed.

Lemma And_Err (children : list Builder) (d : Dialect) (buf : Buffer)
    (e : error) :
  (And children d buf).2 = Err e ->
  exists c buf', c ∈ children /\ (c d buf').2 = Err e.
Proof.
  unfold And. case_decide.
  - destruct (build_children d " AND " 0 children (WriteString buf "("))
      as [buf1 o] eqn:Hb.
    destruct o; simpl; [done| |done].
    intros [= ->]. apply (build_children_Err d " AND " children e 0
                            (WriteString buf "(")). by rewrite Hb.
  - apply build_children_Err.
Qed.

(** ** UPDATE *)

Module UpdateFacts.

Import Update.

Section WithRaw.

Variable raw_Build : Dialect -> raw -> Buffer -> Buffer * outcome.
Variable range_order : gmap string value -> list (string * value).

(** Whatever the order, [range] visits every entry of the map once. *)
Hypothesis range_order_perm : forall m, range_order m ≡ₚ map_to_list m.

Abbreviation write_set := (Update.write_set raw_Build).
Abbreviation Build := (Update.Build raw_Build range_order).

Lemma range_order_singleton (col : string) (v : value) :
  range_order {[col := v]} = [(col, v)].
Proof using range_order_perm.
  apply Permutation_singleton_r.
  by rewrite range_order_perm, map_to_list_singleton.
Qed.

(** A SET value that is a raw fragment is handed to [raw.Build] after the
    column name; no placeholder is written and no value is bound for it. *)
Lemma write_set_raw (d : Dialect) (col query : string) (vals : list value)
    (buf : Buffer) :
  write_set d 0 (range_order {[col := VRaw query vals]}) buf
  = match raw_Build d {| Query := query; raw_Value := vals |}
            (WriteString (WriteString buf (QuoteIdent d col)) " = ") with
    | (buf', Panic msg) => (buf', Panic msg)
    | (buf', _) => (buf', Nil)
    end.
Proof using range_order_perm.
  rewrite range_order_singleton. simpl.
  by destruct (raw_Build _ _ _) as [buf' [| |]].
Qed.

Lemma write_set_bound (d : Dialect) (kvs : list (string * value)) :
  Forall (fun kv => is_raw kv.2 = false) kvs ->
  forall i buf,
    write_set d i kvs buf
    = ({| buf_String := buf_String buf +:+ joined ", " i (set_item d <$> kvs);
          buf_Value := buf_Value buf ++ (snd <$> kvs) |}, Nil).
Proof.
  induction 1 as [|[col v] rest Hv _ IH]; intros i buf.
  - simpl. rewrite string_app_nil_r, app_nil_r. by destruct buf.
  - simpl in Hv. unfold set_item. csimpl.
    destruct v; try done; rewrite IH; unfold WriteString, WriteValue; simpl;
      destruct (0 <? i); simpl; str_norm; by rewrite <- app_assoc.
Qed.

(** The SET loop never ends in a returned error. *)
Lemma write_set_outcome (d : Dialect) (kvs : list (string * value)) :
  forall i buf e, (write_set d i kvs buf).2 <> Err e.
Proof.
  induction kvs as [|[col v] rest IH]; intros i buf e; simpl; [done|].
  destruct v; try apply IH.
  destruct (raw_Build _ _ _) as [buf' [|e'|msg]]; simpl; (apply IH || done).
Qed.

Lemma Build_empty_table (b : UpdateStmt) (d : Dialect) (buf : Buffer) :
  Query (raw_ b) = "" -> Table b = "" ->
  Build b d buf = (buf, Err ErrTableNotSpecified).
Proof.
  intros Hraw Htable. unfold Update.Build.
  destruct (decide (Query (raw_ b) <> "")) as [?|_]; [done|].
  by destruct (decide (Table b = "")).
Qed.

Lemma Build_empty_values (b : UpdateStmt) (d : Dialect) (buf : Buffer) :
  Query (raw_ b) = "" -> Table b <> "" -> size (Value b) = 0 ->
  Build b d buf = (buf, Err ErrColumnNotSpecified).
Proof.
  intros Hraw Htable Hsize. unfold Update.Build.
  destruct (decide (Query (raw_ b) <> "")) as [?|_]; [done|].
  destruct (decide (Table b = "")) as [?|_]; [done|].
  by destruct (decide (size (Value b) = 0)).
Qed.

(** Past validation, an error can only come from a condition. *)
Lemma Build_Err_from_condition (b : UpdateStmt) (d : Dialect) (buf : Buffer)
    (e : error) :
  Query (raw_ b) = "" -> Table b <> "" -> size (Value b) <> 0 ->
  (Build b d buf).2 = Err e ->
  exists c buf', c ∈ WhereCond b /\ (c d buf').2 = Err e.
Proof.
  intros Hraw Htable Hsize. unfold Update.Build.
  destruct (decide (Query (raw_ b) <> "")) as [?|_]; [done|].
  destruct (decide (Table b = "")) as [?|_]; [done|].
  destruct (decide (size (Value b) = 0)) as [?|_]; [done|].
  pose proof (write_set_outcome d (range_order (Value b)) 0
    (WriteString (WriteString (WriteString buf "UPDATE ")
       (QuoteIdent d (Table b))) " SET ")) as Hset.
  destruct (write_set _ _ _ _) as [buf1 [|e1|msg]]; simpl in *.
  - case_decide; [|done].
    destruct (And (WhereCond b) d (WriteString buf1 " WHERE "))
      as [buf2 o] eqn:Hand.
    destruct o; simpl.
    + by case_decide.
    + intros [= ->]. apply (And_Err _ d (WriteString buf1 " WHERE ")).
      by rewrite Hand.
    + done.
  - intros [= ->]. by destruct (Hset e).
  - done.
Qed.

(** C1 (as amended).  For a statement with no raw override, a table, a
    non-empty value mapping and no condition, [Build] does not return: it
    panics.  When no value of the mapping is a raw fragment the panic carries
    the message of update.go:66, and by then the buffer has received the
    UPDATE text up to the end of the SET clause and the bound values. *)
Theorem Build_without_condition_panics (b : UpdateStmt) (d : Dialect)
    (buf : Buffer) :
  Query (raw_ b) = "" -> Table b <> "" -> size (Value b) <> 0 ->
  WhereCond b = [] ->
  (exists msg, (Build b d buf).2 = Panic msg) /\
  (Forall (fun kv => is_raw kv.2 = false) (range_order (Value b)) ->
   Build b d buf
   = ({| buf_String :=
           buf_String buf +:+ "UPDATE " +:+ QuoteIdent d (Table b) +:+ " SET "
           +:+ String.concat ", " (set_item d <$> range_order (Value b));
         buf_Value := buf_Value buf ++ (snd <$> range_order (Value b)) |},
      Panic "没有条件")).
Proof.
  intros Hraw Htable Hsize Hwhere. unfold Update.Build.
  destruct (decide (Query (raw_ b) <> "")) as [?|_]; [done|].
  destruct (decide (Table b = "")) as [?|_]; [done|].
  destruct (decide (size (Value b) = 0)) as [?|_]; [done|].
  rewrite Hwhere. simpl. split.
  - pose proof (write_set_outcome d (range_order (Value b)) 0
      (WriteString (WriteString (WriteString buf "UPDATE ")
         (QuoteIdent d (Table b))) " SET ")) as Hset.
    destruct (write_set _ _ _ _) as [buf1 [|e1|msg]]; simpl in *.
    + by eexists.
    + by destruct (Hset e1).
    + by eexists.
  - intros Hbound. rewrite write_set_bound by done.
    rewrite joined_concat.
    unfold WriteString. simpl. by str_norm.
Qed.

(** *** More of UPDATE *)

(** X15.  With no raw override, a table, a non-empty mapping without raw
    fragments and at least one condition, when the conditions compile,
    [Build] returns nil and the text is: UPDATE, the quoted table, SET, one
    [column = ?] item per entry of the mapping joined by ", ", WHERE, what
    the conditions wrote, and LIMIT with the count when the count is not
    negative.  The bound values come in the order of the items, before
    those of the conditions, and every column of the mapping has exactly
    one item, whatever the order the map is visited in. *)
Theorem Build_with_bound_values (b : UpdateStmt) (d : Dialect)
    (buf bufw : Buffer) :
  Query (raw_ b) = "" -> Table b <> "" -> size (Value b) <> 0 ->
  Forall (fun kv => is_raw kv.2 = false) (range_order (Value b)) ->
  WhereCond b <> [] ->
  And (WhereCond b) d
    {| buf_String :=
         buf_String buf +:+ "UPDATE " +:+ QuoteIdent d (Table b) +:+ " SET "
         +:+ String.concat ", " (set_item d <$> range_order (Value b))
         +:+ " WHERE ";
       buf_Value := buf_Value buf ++ (range_order (Value b)).*2 |}
  = (bufw, Nil) ->
  Build b d buf
  = (if decide (0 <= LimitCount b)%Z
     then WriteString bufw (" LIMIT " +:+ pretty (LimitCount b))
     else bufw,
     Nil) /\
  NoDup (range_order (Value b)).*1 /\
  (range_order (Value b)).*1 ≡ₚ (map_to_list (Value b)).*1.
Proof using range_order_perm.
  intros Hraw Htable Hsize Hbound Hwhere Hand. split.
  - unfold Update.Build.
    destruct (decide (Query (raw_ b) <> "")) as [?|_]; [done|].
    destruct (decide (Table b = "")) as [?|_]; [done|].
    destruct (decide (size (Value b) = 0)) as [?|_]; [done|].
    rewrite write_set_bound by done.
    destruct (decide (0 < length (WhereCond b))) as [_|Hn].
    + rewrite joined_concat. unfold WriteString at 1 2 3 4. simpl.
      rewrite !string_app_assoc in *. rewrite Hand.
      case_decide; [|done]. by rewrite WriteString_app.
    + destruct (WhereCond b); simpl in *; [done|lia].
  - rewrite range_order_perm. split; [apply NoDup_fst_map_to_list|done].
Qed.

Lemma Build_negative_limit (b : UpdateStmt) (d : Dialect) (buf : Buffer)
    (n : Z) :
  (n < 0)%Z ->
  Build (set_LimitCount b n) d buf = Build (set_LimitCount b (-1)) d buf.
Proof.
  intros Hn. unfold Update.Build. simpl.
  by destruct (decide (0 <= n)%Z); [lia|].
Qed.

(** X16.  With no raw override, a count that is not negative changes a
    compile in one way only: when it succeeds, LIMIT and the count in
    decimal come last in the text.  Outcome, bound values and the rest of
    the text are those of the statement without a limit. *)
Theorem Build_limit_is_a_suffix (b : UpdateStmt) (d : Dialect) (buf : Buffer)
    (n : Z) :
  Query (raw_ b) = "" -> (0 <= n)%Z ->
  Build (set_LimitCount b n) d buf
  = match Build (set_LimitCount b (-1)) d buf with
    | (buf', Nil) => (WriteString buf' (" LIMIT " +:+ pretty n), Nil)
    | res => res
    end.
Proof.
  intros Hraw Hn. unfold Update.Build. simpl.
  destruct (decide (Query (raw_ b) <> "")) as [?|_]; [done|].
  destruct (decide (Table b = "")) as [?|_]; [done|].
  destruct (decide (size (Value b) = 0)) as [?|_]; [done|].
  destruct (write_set _ _ _ _) as [buf1 []]; [|done..].
  case_decide; [|done].
  destruct (And _ _ _) as [buf2 []]; [|done..].
  destruct (decide (0 <= n)%Z); [|lia]. by rewrite WriteString_app.
Qed.

(** X17.  [Limit] converts its unsigned argument to [int64]: from 2^63 on
    the stored count is negative, and the statement compiles exactly as one
    without a limit, so no LIMIT is written; below 2^63 the count is stored
    as given. *)
Theorem Limit_wraps_around (b : UpdateStmt) (d : Dialect) (buf : Buffer)
    (n : Z) :
  (0 <= n < 2 ^ 64)%Z ->
  ((n < 2 ^ 63)%Z -> Limit b n = set_LimitCount b n) /\
  ((2 ^ 63 <= n)%Z ->
   (LimitCount (Limit b n) < 0)%Z /\
   Build (Limit b n) d buf = Build (set_LimitCount b (-1)) d buf).
Proof.
  intros Hn. unfold Limit. split; intros Hcase.
  - destruct (Z.ltb_spec n (2 ^ 63)); [done|lia].
  - destruct (Z.ltb_spec n (2 ^ 63)); [lia|]. simpl. split; [lia|].
    apply (Build_negative_limit b d buf (n - 2 ^ 64)). lia.
Qed.



(** *** Executing an UPDATE *)

Variable RunnerState : Type.
Variable runner_Exec :
  RunnerState -> string -> list value -> RunnerState * (Result + error).

Abbreviation ExecContext :=
  (Update.ExecContext raw_Build range_order runner_Exec).

Lemma Build_no_where (b : UpdateStmt) (d : Dialect) (buf : Buffer) :
  Query (raw_ b) = "" -> WhereCond b = [] ->
  (exists e, (Build b d buf).2 = Err e) \/
  (exists msg, (Build b d buf).2 = Panic msg).
Proof.
  intros Hraw Hwhere. unfold Update.Build.
  destruct (decide (Query (raw_ b) <> "")) as [?|_]; [done|].
  destruct (decide (Table b = "")) as [?|_]; [left; by eexists|].
  destruct (decide (size (Value b) = 0)) as [?|_]; [left; by eexists|].
  rewrite Hwhere. simpl.
  pose proof (write_set_outcome d (range_order (Value b)) 0
    (WriteString (WriteString (WriteString buf "UPDATE ")
       (QuoteIdent d (Table b))) " SET ")) as Hset.
  destruct (write_set _ _ _ _) as [buf1 [|e1|msg]]; simpl in *.
  - right. by eexists.
  - by destruct (Hset e1).
  - right. by eexists.
Qed.

(** X19.  An UPDATE with no raw override and no condition is never sent:
    [ExecContext] leaves the runner as it was, and ends in a returned error
    (no table, or no value) or in a panic, never in a result. *)
Theorem ExecContext_never_sends_without_condition (b : UpdateStmt)
    (rs : RunnerState) :
  Query (raw_ b) = "" -> WhereCond b = [] ->
  (ExecContext b rs).1 = rs /\
  ((exists e, (ExecContext b rs).2 = Insert.ExecErr e) \/
   (exists msg, (ExecContext b rs).2 = Insert.ExecPanic msg)).
Proof.
  intros Hraw Hwhere. unfold Update.ExecContext, Update.exec.
  destruct (Build_no_where b (dialect b) NewBuffer Hraw Hwhere)
    as [[e He]|[msg He]];
    destruct (Build b (dialect b) NewBuffer) as [buf o]; simpl in He; subst o;
    simpl; (split; [done|]); [left|right]; by eexists.
Qed.

End WithRaw.

End UpdateFacts.

(** ** The null event receiver *)

Module EventFacts.

Import Event.

Section WithLibraries.

Variable fmt_v : option error -> string.
Variable Atoi : string -> Z.
Variable now_plus : Z -> string.

Abbreviation EventErrKv := (Event.EventErrKv fmt_v Atoi now_plus).
Abbreviation TimingKv := (Event.TimingKv now_plus).

(** X20.  The levels do what the comment above [ShowSQL] says.  At level 0
    or below no method of the receiver prints; at level 1 only [EventErrKv]
    prints, one line per call; from level 2 on [TimingKv] prints one line
    per call as well.  [Event], [EventKv], [Timing] and [EventErr] never
    print, and [EventErr] and [EventErrKv] return the error they are
    given, whatever the level. *)
Theorem levels_as_documented (g : globals) (name : string)
    (err : option error) (nanoseconds : Z) (kvs : gmap string string) :
  ((EventErrKv g name err kvs).2 = err /\ EventErr g name err = ([], err)) /\
  (Event g name = [] /\ EventKv g name kvs = [] /\
   Timing g name nanoseconds = []) /\
  ((showSQLLevel g <= 0)%Z ->
   (EventErrKv g name err kvs).1 = [] /\ TimingKv g name nanoseconds kvs = []) /\
  (showSQLLevel g = 1%Z ->
   length (EventErrKv g name err kvs).1 = 1 /\
   TimingKv g name nanoseconds kvs = []) /\
  ((2 <= showSQLLevel g)%Z ->
   length (EventErrKv g name err kvs).1 = 1 /\
   length (TimingKv g name nanoseconds kvs) = 1).
Proof.
  unfold Event.EventErrKv, Event.TimingKv.
  split; [done|]. split; [done|].
  split; [|split]; intros Hlevel;
    repeat case_decide; try lia; simpl;
    destruct (kvs !! "time"); destruct (logPrintFunc g); done.
Qed.

(** X21.  [ShowSQL] takes the first of the print functions it is given and
    keeps it when a later call gives none, while the level is replaced
    every time: after such two calls, with a level of 1 or more,
    [EventErrKv] prints one line through that function and nothing to the
    console; the line shows the "time" and "sql" entries of the map, or "-"
    and the empty text where the map lacks them. *)
Theorem ShowSQL_keeps_print_function (g : globals) (l1 l2 : Z) (f : nat)
    (others : list (option nat)) (name : string) (err : option error)
    (kvs : gmap string string) :
  (1 <= l2)%Z ->
  EventErrKv (ShowSQL (ShowSQL g l1 (Some f :: others)) l2 []) name err kvs
  = ([ToFunc f
        ("[ERR " +:+ default "-" (kvs !! "time") +:+ "ms] [" +:+ fmt_v err
         +:+ "] " +:+ default "" (kvs !! "sql"))],
     err).
Proof.
  intros Hlevel. unfold Event.EventErrKv, ShowSQL. simpl.
  case_decide; [|lia]. by destruct (kvs !! "time").
Qed.


End WithLibraries.

End EventFacts.

(** ** Instances *)

Example users_rows_first_chunk :
  Insert.Build raw_Build_spec (Insert.SetRunLen users_rows 1) mysql NewBuffer
  = (Insert.set_Value (Insert.SetRunLen users_rows 1) [[VStr "b"; VInt 2]],
     {| buf_String := "INSERT INTO `users` (`name`,`age`) VALUES (?,?)";
        buf_Value := [VStr "a"; VInt 1] |},
     Nil).
Proof. reflexivity. Qed.

Example users_age_map : map_to_list (Update.Value users_age) = [("age", VInt 5)].
Proof. reflexivity. Qed.

(** C1, the claim fails: [Update("users").Set("age", 5)] with no condition
    does not return a missing-condition error.  [Build] panics, and the
    buffer already holds UPDATE text and the bound value. *)
Lemma Build_without_condition_counterexample :
  Update.Build raw_Build_spec map_to_list users_age mysql NewBuffer
  = ({| buf_String := "UPDATE `users` SET `age` = ?";
        buf_Value := [VInt 5] |},
     Panic "没有条件").
Proof. reflexivity. Qed.

Lemma Build_without_condition_panics_witness :
  (exists msg,
     (Update.Build raw_Build_spec map_to_list users_age mysql NewBuffer).2
     = Panic msg) /\
  (Forall (fun kv => Update.is_raw kv.2 = false)
     (map_to_list (Update.Value users_age)) ->
   Update.Build raw_Build_spec map_to_list users_age mysql NewBuffer
   = ({| buf_String := "UPDATE `users` SET `age` = ?";
         buf_Value := [VInt 5] |},
      Panic "没有条件")).
Proof.
  assert (Query (Update.raw_ users_age) = "") as Hraw by reflexivity.
  assert (Update.Table users_age <> "") as Htable by discriminate.
  assert (size (Update.Value users_age) <> 0) as Hsize
    by (vm_compute; discriminate).
  assert (Update.WhereCond users_age = []) as Hwhere by reflexivity.
  exact (UpdateFacts.Build_without_condition_panics raw_Build_spec map_to_list
           users_age mysql NewBuffer Hraw Htable Hsize Hwhere).
Defined.

(** C2, the claim fails for a statement with a raw override, which emits no
    row and leaves the pending list alone, and for a negative cap, under
    which a call emits no row although [min C R] is the cap itself. *)
Lemma Build_emits_successive_chunks_counterexample :
  let with_raw :=
    Insert.Values
      (Insert.Columns (Insert.InsertBySql mysql "SELECT 1" []) ["a"])
      [VInt 1] in
  let with_table :=
    {| Insert.raw_ := Insert.raw_ with_raw; Insert.Table := "t";
       Insert.Column := Insert.Column with_raw;
       Insert.Value := Insert.Value with_raw; Insert.RunLen := 0%Z;
       Insert.ReturnColumn := []; Insert.RecordID := None;
       Insert.dialect := mysql |} in
  let negative := Insert.SetRunLen users_rows (-1) in
  (Insert.Build raw_Build_spec with_table mysql NewBuffer
   = (Insert.SetRunLen with_table 1000,
      {| buf_String := "SELECT 1"; buf_Value := [] |}, Nil)) /\
  (Z.min (Insert.cap with_table) (Z.of_nat (length (Insert.Value with_table)))
   = 1%Z) /\
  (Insert.Build raw_Build_spec negative mysql NewBuffer
   = (negative,
      {| buf_String := "INSERT INTO `users` (`name`,`age`) VALUES ";
         buf_Value := [] |}, Nil)) /\
  (Z.min (Insert.cap negative) (Z.of_nat (length (Insert.Value negative)))
   = (-1)%Z).
Proof. repeat split. Qed.

Lemma Build_emits_successive_chunks_witness :
  let b := Insert.SetRunLen users_rows 1 in
  let call :=
    Insert.Build raw_Build_spec (Insert.Build_times raw_Build_spec 1 b mysql)
      mysql NewBuffer in
  (Insert.Value (Insert.Build_times raw_Build_spec 1 b mysql)
   = [[VStr "b"; VInt 2]]) /\
  (call.2 = Nil) /\
  (buf_String call.1.2 = "INSERT INTO `users` (`name`,`age`) VALUES (?,?)") /\
  (buf_Value call.1.2 = [VStr "b"; VInt 2]) /\
  (length (take 1 [[VStr "b"; VInt 2]]) = 1) /\
  (Insert.Value call.1.1 = []) /\
  (Insert.Value b
   = [[VStr "a"; VInt 1]] ++ [[VStr "b"; VInt 2]] ++ Insert.Value call.1.1).
Proof.
  assert (Query (Insert.raw_ (Insert.SetRunLen users_rows 1)) = "") as Hraw
    by reflexivity.
  assert (Insert.Table (Insert.SetRunLen users_rows 1) <> "") as Htable
    by discriminate.
  assert (Insert.Column (Insert.SetRunLen users_rows 1) <> []) as Hcol
    by discriminate.
  exact (InsertFacts.Build_emits_successive_chunks raw_Build_spec
           (Insert.SetRunLen users_rows 1) mysql 1 Hraw Htable Hcol).
Defined.

(** C4, the claim fails when a tuple and the column list differ in length:
    [Columns("a","b").Values("x")] compiles to two placeholders and one
    argument.  It also fails under a raw override, where the appended
    arguments are those of the raw fragment and not the pending rows, and
    for an identifier that contains the placeholder character, which the
    text then holds once more than there are arguments. *)
Lemma Build_placeholders_counterexample :
  let short :=
    Insert.Values (Insert.Columns (Insert.InsertInto mysql "t") ["a"; "b"])
      [VStr "x"] in
  let with_raw :=
    Insert.Values
      (Insert.Columns (Insert.InsertBySql mysql "CALL p(?, ?)" [VInt 1; VInt 2])
         ["a"])
      [VInt 9] in
  let odd_name :=
    Insert.Values (Insert.Columns (Insert.InsertInto mysql "why?") ["a"])
      [VInt 1] in
  (Insert.Build raw_Build_spec short mysql NewBuffer
   = (Insert.set_Value (Insert.SetRunLen short 1000) [],
      {| buf_String := "INSERT INTO `t` (`a`,`b`) VALUES (?,?)";
         buf_Value := [VStr "x"] |}, Nil)) /\
  (count_placeholder "INSERT INTO `t` (`a`,`b`) VALUES (?,?)" = 2) /\
  (Insert.Build raw_Build_spec with_raw mysql NewBuffer
   = (Insert.SetRunLen with_raw 1000,
      {| buf_String := "CALL p(?, ?)"; buf_Value := [VInt 1; VInt 2] |}, Nil)) /\
  (Insert.Build raw_Build_spec odd_name mysql NewBuffer
   = (Insert.set_Value (Insert.SetRunLen odd_name 1000) [],
      {| buf_String := "INSERT INTO `why?` (`a`) VALUES (?)";
         buf_Value := [VInt 1] |}, Nil)) /\
  (count_placeholder "INSERT INTO `why?` (`a`) VALUES (?)" = 2).
Proof. repeat split. Qed.

Lemma Build_placeholders_match_values_witness :
  let call := Insert.Build raw_Build_spec users_rows mysql NewBuffer in
  (count_placeholder (buf_String call.1.2) = 0 + 2 * 2) /\
  (buf_Value call.1.2 = [] ++ [VStr "a"; VInt 1; VStr "b"; VInt 2]) /\
  (count_placeholder (buf_String call.1.2) - 0 = length (buf_Value call.1.2) - 0).
Proof.
  assert (Query (Insert.raw_ users_rows) = "") as Hraw by reflexivity.
  assert (Forall (fun tuple => length tuple = length (Insert.Column users_rows))
            (Insert.Value users_rows)) as Haligned by repeat constructor.
  assert (Forall (fun name => count_placeholder (QuoteIdent mysql name) = 0)
            (Insert.Table users_rows
             :: Insert.Column users_rows ++ Insert.ReturnColumn users_rows))
    as Hquote by repeat constructor.
  exact (InsertFacts.Build_placeholders_match_values raw_Build_spec users_rows
           mysql NewBuffer Hraw Haligned Hquote).
Defined.

Lemma Build_default_cap_witness :
  (Insert.cap (Insert.Build_times raw_Build_spec 0 users_rows mysql) = 1000%Z) /\
  (Insert.RunLen (Insert.Build_times raw_Build_spec 1 users_rows mysql)
   = 1000%Z) /\
  exists k : nat,
    (k <= 1000) /\
    (Insert.Value (Insert.Build_times raw_Build_spec 1 users_rows mysql)
     = drop k (Insert.Value (Insert.Build_times raw_Build_spec 0 users_rows mysql))) /\
    (Query (Insert.raw_ users_rows) = "" ->
     buf_Value
       (Insert.Build raw_Build_spec
          (Insert.Build_times raw_Build_spec 0 users_rows mysql) mysql
          NewBuffer).1.2
     = concat (take k (Insert.Value
                         (Insert.Build_times raw_Build_spec 0 users_rows mysql)))).
Proof.
  assert (Insert.RunLen users_rows = 0%Z) as Hzero by reflexivity.
  exact (InsertFacts.Build_default_cap raw_Build_spec users_rows mysql 0 Hzero).
Defined.

Lemma ExecContext_stops_at_first_error_witness :
  let run :=
    Insert.ExecContext_loop raw_Build_spec (log_runner (Some 1)) 5
      (start three_rows ∅) in
  (run.2 = Some (Insert.Return None (Some (ErrOther "connection lost")))) /\
  (Insert.st_runner run.1
   = [("INSERT INTO `users` (`name`,`age`) VALUES (?,?)", [VStr "a"; VInt 1]);
      ("INSERT INTO `users` (`name`,`age`) VALUES (?,?)", [VStr "b"; VInt 2])]) /\
  (Insert.Value (Insert.st_b run.1) = [[VStr "c"; VInt 3]]).
Proof.
  set (s0 := start three_rows ∅).
  set (s1 := (Insert.loop_body raw_Build_spec (log_runner (Some 1)) s0).1).
  assert (Insert.loop_reaches raw_Build_spec (log_runner (Some 1)) 1 s0 s1)
    as Hreach.
  { eapply Insert.reaches_S; [discriminate|reflexivity|apply Insert.reaches_0]. }
  assert (Insert.Value (Insert.st_b s1) <> []) as Hv by discriminate.
  assert (1 < 5) as Hfuel by lia.
  destruct (InsertFacts.ExecContext_stops_at_first_error raw_Build_spec _
              (log_runner (Some 1)) 1 5 s0 s1 Hreach Hv Hfuel) as [Herr _].
  rewrite (Herr _ _ _ eq_refl). repeat split.
Defined.

(** C7, the claim fails on a backend without generated ids: every chunk
    executes without error, the slot keeps the 7 it held, and the pointer is
    cleared all the same. *)
Lemma ExecContext_RecordID_counterexample :
  let run :=
    Insert.ExecContext raw_Build_spec no_id_runner 5 three_rows_bound []
      {[1%positive := 7%Z]} in
  (run.2
   = Some (Insert.Return
             (Some {| LastInsertId := inr (ErrOther "LastInsertId is not supported");
                      RowsAffected := inl 1%Z |})
             None)) /\
  (length (Insert.st_runner run.1) = 3) /\
  (Insert.st_mem run.1 !! 1%positive = Some 7%Z) /\
  (Insert.RecordID (Insert.st_b run.1) = None).
Proof. repeat split. Qed.

Lemma ExecContext_writes_RecordID_once_witness :
  let run :=
    Insert.ExecContext_loop raw_Build_spec (log_runner None) 5
      (start three_rows_bound {[1%positive := 7%Z]}) in
  (Insert.RecordID (Insert.st_b run.1) = None) /\
  (Insert.st_mem run.1 = <[1%positive := 1%Z]> {[1%positive := 7%Z]}).
Proof.
  set (s := start three_rows_bound {[1%positive := 7%Z]}).
  assert (Insert.RecordID (Insert.st_b s) = Some 1%positive) as Hid
    by reflexivity.
  assert (Insert.Value (Insert.st_b s) <> []) as Hv by discriminate.
  exact (InsertFacts.ExecContext_writes_RecordID_once raw_Build_spec _
           (log_runner None) 4 s 1%positive _ _ _ Hid Hv eq_refl).
Defined.

Lemma ExecContext_no_pending_rows_witness :
  Insert.ExecContext raw_Build_spec (log_runner None) 5
    (Insert.InsertBySql mysql "INSERT INTO t VALUES (1)" []) [] ∅
  = (start (Insert.InsertBySql mysql "INSERT INTO t VALUES (1)" []) ∅,
     Some (Insert.Return None None)).
Proof.
  assert (Insert.Value (Insert.InsertBySql mysql "INSERT INTO t VALUES (1)" [])
          = []) as Hv by reflexivity.
  exact (InsertFacts.ExecContext_no_pending_rows raw_Build_spec _ (log_runner None)
           5 _ [] ∅ Hv).
Defined.

Lemma GetSQL_leaves_statement_witness :
  let store : gmap positive Insert.InsertStmt := {[1%positive := three_rows]} in
  exists store' r,
    Insert.GetSQL raw_Build_spec 1%positive store = Some (store', r) /\
    store' !! 1%positive = Some three_rows /\
    (exists store'', Insert.GetSQL raw_Build_spec 1%positive store'
                     = Some (store'', r)) /\
    Insert.ExecContext_at raw_Build_spec (log_runner None) 5 1%positive store' [] ∅
    = Insert.ExecContext_at raw_Build_spec (log_runner None) 5 1%positive store [] ∅.
Proof.
  assert (({[1%positive := three_rows]} : gmap positive Insert.InsertStmt)
            !! 1%positive = Some three_rows) as Hb by reflexivity.
  exact (InsertFacts.GetSQL_leaves_statement raw_Build_spec _ (log_runner None)
           1%positive _ three_rows 5 [] ∅ Hb).
Defined.

(** Compiling through the pointer itself, as [ExecContext] does, consumes
    the rows; [GetSQL] leaves them. *)
Example getSQL_at_consumes :
  let store : gmap positive Insert.InsertStmt := {[1%positive := three_rows]} in
  (Insert.Value <$>
     ((Insert.getSQL_at raw_Build_spec 1%positive mysql store)
        ≫= (fun r => r.1 !! 1%positive))
   = Some [[VStr "b"; VInt 2]; [VStr "c"; VInt 3]]) /\
  (Insert.Value <$>
     ((Insert.GetSQL raw_Build_spec 1%positive store)
        ≫= (fun r => r.1 !! 1%positive))
   = Some [[VStr "a"; VInt 1]; [VStr "b"; VInt 2]; [VStr "c"; VInt 3]]) /\
  (snd <$> Insert.GetSQL raw_Build_spec 1%positive store
   = Some ("INSERT INTO `users` (`name`,`age`) VALUES (?,?)", Nil)).
Proof. repeat split. Qed.

(** ** Nested raw fragments in UPDATE *)

Lemma write_set_ignores_raw_error
    (raw_Build : Dialect -> raw -> Buffer -> Buffer * outcome) (d : Dialect)
    (kvs : list (string * value)) :
  forall i buf,
    Update.write_set raw_Build d i kvs buf
    = Update.write_set (without_error raw_Build) d i kvs buf.
Proof.
  induction kvs as [|[col v] rest IH]; intros i buf; simpl; [done|].
  destruct v; try apply IH.
  unfold without_error at 1.
  destruct (raw_Build _ _ _) as [buf' [|e|msg]]; (apply IH || done).
Qed.

(** Whatever error the raw fragment of a SET value returns, the UPDATE
    compiles as if the fragment had returned nil. *)
Lemma Build_ignores_raw_error
    (raw_Build : Dialect -> raw -> Buffer -> Buffer * outcome)
    (range_order : gmap string value -> list (string * value))
    (b : Update.UpdateStmt) (d : Dialect) (buf : Buffer) :
  Query (Update.raw_ b) = "" ->
  Update.Build raw_Build range_order b d buf
  = Update.Build (without_error raw_Build) range_order b d buf.
Proof.
  intros Hraw. unfold Update.Build.
  destruct (decide (Query (Update.raw_ b) <> "")) as [?|_]; [done|].
  by rewrite write_set_ignores_raw_error.
Qed.




(** ** Validation in both builders *)

(** C6 (as amended).  With no raw override, INSERT's [Build] returns
    [ErrTableNotSpecified] exactly when the table is empty and
    [ErrColumnNotSpecified] exactly when the table is set and the column
    list is empty, and an error leaves the buffer as it was.  UPDATE's
    [Build] returns the same errors in the same cases, over its value
    mapping, with the buffer as it was; it returns them in no other case
    provided no WHERE condition returns that error itself. *)
Theorem Build_validates_table_then_columns
    (raw_Build : Dialect -> raw -> Buffer -> Buffer * outcome)
    (range_order : gmap string value -> list (string * value))
    (bi : Insert.InsertStmt) (bu : Update.UpdateStmt)
    (d : Dialect) (buf : Buffer) :
  Query (Insert.raw_ bi) = "" -> Query (Update.raw_ bu) = "" ->
  let ri := Insert.Build raw_Build bi d buf in
  let ru := Update.Build raw_Build range_order bu d buf in
  (ri.2 = Err ErrTableNotSpecified <-> Insert.Table bi = "") /\
  (ri.2 = Err ErrColumnNotSpecified
   <-> Insert.Table bi <> "" /\ Insert.Column bi = []) /\
  (forall e, ri.2 = Err e -> ri.1.2 = buf) /\
  (Update.Table bu = "" -> ru = (buf, Err ErrTableNotSpecified)) /\
  (Update.Table bu <> "" -> size (Update.Value bu) = 0 ->
   ru = (buf, Err ErrColumnNotSpecified)) /\
  ((forall c buf', c ∈ Update.WhereCond bu ->
                   (c d buf').2 <> Err ErrTableNotSpecified) ->
   ru.2 = Err ErrTableNotSpecified -> Update.Table bu = "") /\
  ((forall c buf', c ∈ Update.WhereCond bu ->
                   (c d buf').2 <> Err ErrColumnNotSpecified) ->
   ru.2 = Err ErrColumnNotSpecified ->
   Update.Table bu <> "" /\ size (Update.Value bu) = 0).
Proof.
  intros Hri Hru ri ru. subst ri ru.
  assert (Insert.Table bi = "" \/
          (Insert.Table bi <> "" /\ Insert.Column bi = []) \/
          (Insert.Table bi <> "" /\ Insert.Column bi <> [])) as Hcases.
  { destruct (decide (Insert.Table bi = "")); [by left|right].
    destruct (decide (Insert.Column bi = [])); [by left|by right]. }
  split; [|split; [|split]].
  - destruct Hcases as [Ht|[[Ht Hc]|[Ht Hc]]].
    + by rewrite InsertFacts.Build_no_table.
    + rewrite InsertFacts.Build_no_column by done. by split.
    + rewrite InsertFacts.Build_ok by done. by split.
  - destruct Hcases as [Ht|[[Ht Hc]|[Ht Hc]]].
    + rewrite InsertFacts.Build_no_table by done. split; [done|]. by intros [? _].
    + by rewrite InsertFacts.Build_no_column.
    + rewrite InsertFacts.Build_ok by done. split; [done|]. by intros [_ ?].
  - intros e. destruct Hcases as [Ht|[[Ht Hc]|[Ht Hc]]].
    + by rewrite InsertFacts.Build_no_table.
    + by rewrite InsertFacts.Build_no_column.
    + by rewrite InsertFacts.Build_ok.
  - split; [by apply UpdateFacts.Build_empty_table|].
    split; [by apply UpdateFacts.Build_empty_values|].
    split.
    + intros Hcond Herr.
      destruct (decide (Update.Table bu = "")) as [|Ht]; [done|].
      destruct (decide (size (Update.Value bu) = 0)) as [Hs|Hs].
      { by rewrite UpdateFacts.Build_empty_values in Herr. }
      destruct (UpdateFacts.Build_Err_from_condition raw_Build range_order bu d buf
                  _ Hru Ht Hs Herr) as (c & buf' & Hin & Hc).
      by destruct (Hcond c buf' Hin).
    + intros Hcond Herr.
      destruct (decide (Update.Table bu = "")) as [Ht|Ht].
      { by rewrite UpdateFacts.Build_empty_table in Herr. }
      split; [done|].
      destruct (decide (size (Update.Value bu) = 0)) as [|Hs]; [done|].
      destruct (UpdateFacts.Build_Err_from_condition raw_Build range_order bu d buf
                  _ Hru Ht Hs Herr) as (c & buf' & Hin & Hc).
      by destruct (Hcond c buf' Hin).
Qed.

(** C6, the claim fails for UPDATE: with table "t" set, a condition that
    is itself a statement without a table makes [Build] return
    [ErrTableNotSpecified], after text and a value were emitted. *)
Lemma Build_validates_counterexample :
  let b :=
    Update.Where (Update.Set_ (Update.Update mysql "t") "a" (VInt 1))
      (insert_Builder raw_Build_spec (Insert.InsertInto mysql "")) in
  (Update.Table b = "t") /\
  (Update.Build raw_Build_spec map_to_list b mysql NewBuffer
   = ({| buf_String := "UPDATE `t` SET `a` = ? WHERE ";
         buf_Value := [VInt 1] |},
      Err ErrTableNotSpecified)).
Proof. repeat split. Qed.

Lemma Build_validates_table_then_columns_witness :
  let bi := Insert.InsertInto mysql "" in
  let bu := Update.Update mysql "t" in
  let ri := Insert.Build raw_Build_spec bi mysql NewBuffer in
  let ru := Update.Build raw_Build_spec map_to_list bu mysql NewBuffer in
  (ri.2 = Err ErrTableNotSpecified <-> Insert.Table bi = "") /\
  (ri.2 = Err ErrColumnNotSpecified
   <-> Insert.Table bi <> "" /\ Insert.Column bi = []) /\
  (forall e, ri.2 = Err e -> ri.1.2 = NewBuffer) /\
  (Update.Table bu = "" -> ru = (NewBuffer, Err ErrTableNotSpecified)) /\
  (Update.Table bu <> "" -> size (Update.Value bu) = 0 ->
   ru = (NewBuffer, Err ErrColumnNotSpecified)) /\
  ((forall c buf', c ∈ Update.WhereCond bu ->
                   (c mysql buf').2 <> Err ErrTableNotSpecified) ->
   ru.2 = Err ErrTableNotSpecified -> Update.Table bu = "") /\
  ((forall c buf', c ∈ Update.WhereCond bu ->
                   (c mysql buf').2 <> Err ErrColumnNotSpecified) ->
   ru.2 = Err ErrColumnNotSpecified ->
   Update.Table bu <> "" /\ size (Update.Value bu) = 0).
Proof.
  assert (Query (Insert.raw_ (Insert.InsertInto mysql "")) = "") as Hri
    by reflexivity.
  assert (Query (Update.raw_ (Update.Update mysql "t")) = "") as Hru
    by reflexivity.
  exact (Build_validates_table_then_columns raw_Build_spec map_to_list
           (Insert.InsertInto mysql "") (Update.Update mysql "t") mysql
           NewBuffer Hri Hru).
Defined.

(** ** Instances of the further properties *)

Lemma Build_text_witness :
  (Insert.Build raw_Build_spec users_rows mysql NewBuffer).2 = Nil /\
  buf_String (Insert.Build raw_Build_spec users_rows mysql NewBuffer).1.2
  = "INSERT INTO `users` (`name`,`age`) VALUES (?,?), (?,?)".
Proof.
  assert (Query (Insert.raw_ users_rows) = "") as Hraw by reflexivity.
  assert (Insert.Table users_rows <> "") as Htable by discriminate.
  assert (Insert.Column users_rows <> []) as Hcol by discriminate.
  exact (InsertFacts.Build_text raw_Build_spec users_rows mysql NewBuffer
           Hraw Htable Hcol).
Defined.

Lemma GetSQL_shows_next_chunk_witness :
  snd <$> Insert.GetSQL raw_Build_spec 1%positive {[1%positive := three_rows]}
  = Some ("INSERT INTO `users` (`name`,`age`) VALUES (?,?)", Nil).
Proof.
  assert (({[1%positive := three_rows]} : gmap positive Insert.InsertStmt)
            !! 1%positive = Some three_rows) as Hp by reflexivity.
  assert (Query (Insert.raw_ three_rows) = "") as Hraw by reflexivity.
  assert (Insert.Table three_rows <> "") as Htable by discriminate.
  assert (Insert.Column three_rows <> []) as Hcol by discriminate.
  exact (InsertFacts.GetSQL_shows_next_chunk raw_Build_spec 1%positive _
           three_rows Hp Hraw Htable Hcol).
Defined.

Lemma Pair_keeps_single_row_witness :
  Insert.Pair (Insert.InsertInto mysql "t") "a" (VInt 1)
  = (Insert.set_Value (Insert.Columns (Insert.InsertInto mysql "t") ["a"])
       [[VInt 1]], None) /\
  Insert.pair_built (Insert.Pair (Insert.InsertInto mysql "t") "a" (VInt 1)).1.
Proof.
  assert (Insert.pair_built (Insert.InsertInto mysql "t")) as Hb
    by (left; split; reflexivity).
  exact (InsertFacts.Pair_keeps_single_row (Insert.InsertInto mysql "t") "a"
           (VInt 1) Hb).
Defined.

Lemma Map_with_columns_witness :
  let b := Insert.Columns (Insert.InsertInto mysql "t") ["a"; "b"] in
  Insert.Map map_to_list b {["a" := VInt 1; "z" := VInt 9]}
  = Insert.set_Value b [[VInt 1; VNil]] /\
  length [VInt 1; VNil]
  = length (Insert.Column
              (Insert.Map map_to_list b {["a" := VInt 1; "z" := VInt 9]})).
Proof.
  assert (Insert.Column
            (Insert.Columns (Insert.InsertInto mysql "t") ["a"; "b"]) <> [])
    as Hcol by discriminate.
  exact (InsertFacts.Map_with_columns map_to_list
           (Insert.Columns (Insert.InsertInto mysql "t") ["a"; "b"])
           {["a" := VInt 1; "z" := VInt 9]} Hcol).
Defined.

Lemma Map_without_columns_witness :
  let b := Insert.Map map_to_list (Insert.InsertInto mysql "t")
             {["a" := VInt 1]} in
  exists row,
    Insert.Value b = [] ++ [row] /\
    length row = length (Insert.Column b) /\
    NoDup (Insert.Column b) /\
    Insert.Column b ≡ₚ (map_to_list ({["a" := VInt 1]} : gmap string value)).*1 /\
    list_to_map (zip (Insert.Column b) row)
    = ({["a" := VInt 1]} : gmap string value).
Proof.
  assert (Insert.Column (Insert.InsertInto mysql "t") = []) as Hcol
    by reflexivity.
  assert (map_to_list ({["a" := VInt 1]} : gmap string value)
          ≡ₚ map_to_list ({["a" := VInt 1]} : gmap string value)) as Hperm
    by reflexivity.
  exact (InsertFacts.Map_without_columns map_to_list
           (Insert.InsertInto mysql "t") {["a" := VInt 1]} Hcol Hperm).
Defined.


Lemma ExecContext_drops_failed_chunk_witness :
  Insert.ExecContext_loop raw_Build_spec (log_runner (Some 0)) 5
    (start three_rows ∅)
  = ({| Insert.st_b :=
          Insert.set_Value three_rows [[VStr "b"; VInt 2]; [VStr "c"; VInt 3]];
        Insert.st_result := None;
        Insert.st_runner :=
          [("INSERT INTO `users` (`name`,`age`) VALUES (?,?)",
            [VStr "a"; VInt 1])];
        Insert.st_mem := ∅ |},
     Some (Insert.Return None (Some (ErrOther "connection lost")))).
Proof.
  assert (Query (Insert.raw_ three_rows) = "") as Hraw by reflexivity.
  assert (Insert.Table three_rows <> "") as Htable by discriminate.
  assert (Insert.Column three_rows <> []) as Hcol by discriminate.
  assert (Insert.Value three_rows <> []) as Hv by discriminate.
  assert (log_runner (Some 0) []
            "INSERT INTO `users` (`name`,`age`) VALUES (?,?)" [VStr "a"; VInt 1]
          = ([("INSERT INTO `users` (`name`,`age`) VALUES (?,?)",
               [VStr "a"; VInt 1])],
             inr (ErrOther "connection lost"))) as Hrun by reflexivity.
  exact (InsertFacts.ExecContext_drops_failed_chunk raw_Build_spec _
           (log_runner (Some 0)) 4 (start three_rows ∅)
           [("INSERT INTO `users` (`name`,`age`) VALUES (?,?)",
             [VStr "a"; VInt 1])]
           (ErrOther "connection lost") Hraw Htable Hcol Hv Hrun).
Defined.

Lemma ExecContext_configuration_error_witness :
  Insert.ExecContext_loop raw_Build_spec (log_runner None) 5
    (start row_without_table ∅)
  = ({| Insert.st_b := Insert.SetRunLen row_without_table 1000;
        Insert.st_result := None; Insert.st_runner := [];
        Insert.st_mem := ∅ |},
     Some (Insert.Return None (Some ErrTableNotSpecified))).
Proof.
  assert (Query (Insert.raw_ row_without_table) = "") as Hraw by reflexivity.
  assert (Insert.Table row_without_table = ""
          \/ Insert.Column row_without_table = []) as Hcfg
    by (left; reflexivity).
  assert (Insert.Value row_without_table <> []) as Hv by discriminate.
  exact (InsertFacts.ExecContext_configuration_error raw_Build_spec _
           (log_runner None) 4 (start row_without_table ∅) Hraw Hcfg Hv).
Defined.

Lemma ok_runner_never_fails : never_fails ok_runner.
Proof. intros rs query args. by eexists _, _. Qed.

Lemma ExecContext_sends_every_row_once_witness :
  let run :=
    Insert.ExecContext_loop raw_Build_spec (logged ok_runner) 3
      (start_logged three_rows) in
  run.2 = Some (Insert.Return (Insert.st_result run.1) None) /\
  Insert.Value (Insert.st_b run.1) = [] /\
  (Insert.st_runner run.1).2
  = [("INSERT INTO `users` (`name`,`age`) VALUES (?,?)", [VStr "a"; VInt 1]);
     ("INSERT INTO `users` (`name`,`age`) VALUES (?,?)", [VStr "b"; VInt 2]);
     ("INSERT INTO `users` (`name`,`age`) VALUES (?,?)", [VStr "c"; VInt 3])].
Proof.
  assert (Query (Insert.raw_ three_rows) = "") as Hraw by reflexivity.
  assert (Insert.Table three_rows <> "") as Htable by discriminate.
  assert (Insert.Column three_rows <> []) as Hcol by discriminate.
  assert (0 < Insert.cap three_rows)%Z as Hcap by reflexivity.
  assert (length (Insert.Value three_rows) <= 3) as Hlen by (simpl; lia).
  destruct (InsertFacts.ExecContext_sends_every_row_once raw_Build_spec _
              ok_runner 3 (start_logged three_rows) Hraw Htable Hcol Hcap
              ok_runner_never_fails Hlen) as (Hexit & _ & Hnil & Hsent & _).
  exact (conj Hexit (conj Hnil Hsent)).
Defined.

Lemma ExecContext_raw_override_never_returns_witness :
  let run :=
    Insert.ExecContext_loop raw_Build_spec (logged ok_runner) 3
      (start_logged raw_with_row) in
  run.2 = None /\
  Insert.Value (Insert.st_b run.1) = [[VInt 1]] /\
  (Insert.st_runner run.1).2
  = [("INSERT INTO t VALUES (1)", []); ("INSERT INTO t VALUES (1)", []);
     ("INSERT INTO t VALUES (1)", [])].
Proof.
  assert (Query (Insert.raw_ raw_with_row) <> "") as Hraw by discriminate.
  assert (Insert.Value raw_with_row <> []) as Hv by discriminate.
  assert (raw_Build_spec (Insert.dialect raw_with_row)
            (Insert.raw_ raw_with_row) NewBuffer
          = ({| buf_String := "INSERT INTO t VALUES (1)"; buf_Value := [] |},
             Nil)) as Hbuild by reflexivity.
  exact (InsertFacts.ExecContext_raw_override_never_returns raw_Build_spec _
           ok_runner 3
           {| buf_String := "INSERT INTO t VALUES (1)"; buf_Value := [] |}
           (start_logged raw_with_row) Hraw Hv Hbuild ok_runner_never_fails).
Defined.

Lemma ExecContext_negative_cap_never_returns_witness :
  let run :=
    Insert.ExecContext_loop raw_Build_spec (logged ok_runner) 2
      (start_logged (Insert.SetRunLen users_rows (-1))) in
  run.2 = None /\
  Insert.Value (Insert.st_b run.1)
  = [[VStr "a"; VInt 1]; [VStr "b"; VInt 2]] /\
  (Insert.st_runner run.1).2
  = [("INSERT INTO `users` (`name`,`age`) VALUES ", []);
     ("INSERT INTO `users` (`name`,`age`) VALUES ", [])].
Proof.
  assert (Query (Insert.raw_ (Insert.SetRunLen users_rows (-1))) = "") as Hraw
    by reflexivity.
  assert (Insert.Table (Insert.SetRunLen users_rows (-1)) <> "") as Htable
    by discriminate.
  assert (Insert.Column (Insert.SetRunLen users_rows (-1)) <> []) as Hcol
    by discriminate.
  assert (Insert.RunLen (Insert.SetRunLen users_rows (-1)) < 0)%Z as Hneg
    by reflexivity.
  assert (Insert.Value (Insert.SetRunLen users_rows (-1)) <> []) as Hv
    by discriminate.
  exact (InsertFacts.ExecContext_negative_cap_never_returns raw_Build_spec _
           ok_runner 2 (start_logged (Insert.SetRunLen users_rows (-1)))
           Hraw Htable Hcol Hneg Hv ok_runner_never_fails).
Defined.

Lemma Build_with_bound_values_witness :
  Update.Build raw_Build_spec map_to_list users_age_by_id mysql NewBuffer
  = ({| buf_String := "UPDATE `users` SET `age` = ? WHERE id = ?";
        buf_Value := [VInt 5; VInt 1] |}, Nil).
Proof.
  assert (Query (Update.raw_ users_age_by_id) = "") as Hraw by reflexivity.
  assert (Update.Table users_age_by_id <> "") as Htable by discriminate.
  assert (size (Update.Value users_age_by_id) <> 0) as Hsize
    by (vm_compute; discriminate).
  assert (Forall (fun kv => Update.is_raw kv.2 = false)
            (map_to_list (Update.Value users_age_by_id))) as Hbound
    by (vm_compute; repeat constructor).
  assert (Update.WhereCond users_age_by_id <> []) as Hwhere by discriminate.
  destruct (UpdateFacts.Build_with_bound_values raw_Build_spec map_to_list
              (fun m => reflexivity (map_to_list m)) users_age_by_id mysql
              NewBuffer
              {| buf_String := "UPDATE `users` SET `age` = ? WHERE id = ?";
                 buf_Value := [VInt 5; VInt 1] |}
              Hraw Htable Hsize Hbound Hwhere) as [Hbuild _].
  - vm_compute. reflexivity.
  - rewrite Hbuild. reflexivity.
Defined.

Lemma Build_limit_is_a_suffix_witness :
  Update.Build raw_Build_spec map_to_list
    (Update.set_LimitCount users_age_by_id 10) mysql NewBuffer
  = ({| buf_String := "UPDATE `users` SET `age` = ? WHERE id = ? LIMIT 10";
        buf_Value := [VInt 5; VInt 1] |}, Nil).
Proof.
  assert (Query (Update.raw_ users_age_by_id) = "") as Hraw by reflexivity.
  assert (0 <= 10)%Z as Hn by lia.
  rewrite (UpdateFacts.Build_limit_is_a_suffix raw_Build_spec map_to_list
             users_age_by_id mysql NewBuffer 10 Hraw Hn).
  vm_compute. reflexivity.
Defined.

Lemma Limit_wraps_around_witness :
  (Update.LimitCount (Update.Limit users_age_by_id (2 ^ 63)) < 0)%Z /\
  Update.Build raw_Build_spec map_to_list
    (Update.Limit users_age_by_id (2 ^ 63)) mysql NewBuffer
  = Update.Build raw_Build_spec map_to_list
      (Update.set_LimitCount users_age_by_id (-1)) mysql NewBuffer.
Proof.
  assert (0 <= 2 ^ 63 < 2 ^ 64)%Z as Hn by lia.
  assert (2 ^ 63 <= 2 ^ 63)%Z as Hbig by lia.
  exact (proj2 (UpdateFacts.Limit_wraps_around raw_Build_spec map_to_list
                  users_age_by_id mysql NewBuffer (2 ^ 63) Hn) Hbig).
Defined.


Lemma ExecContext_never_sends_without_condition_witness :
  (Update.ExecContext raw_Build_spec map_to_list ok_runner users_age tt).1
  = tt /\
  ((exists e,
      (Update.ExecContext raw_Build_spec map_to_list ok_runner users_age tt).2
      = Insert.ExecErr e) \/
   (exists msg,
      (Update.ExecContext raw_Build_spec map_to_list ok_runner users_age tt).2
      = Insert.ExecPanic msg)).
Proof.
  assert (Query (Update.raw_ users_age) = "") as Hraw by reflexivity.
  assert (Update.WhereCond users_age = []) as Hwhere by reflexivity.
  exact (UpdateFacts.ExecContext_never_sends_without_condition raw_Build_spec
           map_to_list unit ok_runner users_age tt Hraw Hwhere).
Defined.

Lemma ShowSQL_keeps_print_function_witness :
  Event.EventErrKv (fun _ => "<nil>") (fun _ => 0%Z) (fun _ => "")
    (Event.ShowSQL
       (Event.ShowSQL {| Event.showSQLLevel := 0; Event.logPrintFunc := None |}
          2 [Some 7; None])
       1 [])
    "dbr.exec" None {["sql" := "SELECT 1"]}
  = ([Event.ToFunc 7
        ("[ERR "
         +:+ default "-"
               (({["sql" := "SELECT 1"]} : gmap string string) !! "time")
         +:+ "ms] [" +:+ "<nil>" +:+ "] "
         +:+ default ""
               (({["sql" := "SELECT 1"]} : gmap string string) !! "sql"))],
     None).
Proof.
  assert (1 <= 1)%Z as Hlevel by lia.
  exact (EventFacts.ShowSQL_keeps_print_function (fun _ => "<nil>")
           (fun _ => 0%Z) (fun _ => "")
           {| Event.showSQLLevel := 0; Event.logPrintFunc := None |} 2 1 7
           [None] "dbr.exec" None {["sql" := "SELECT 1"]} Hlevel).
Defined.

